(** * libsockcanpp: the SocketCAN driver [CanDriver]

    A shallow embedding of [src/CanDriver.cpp] and of the declarations of
    [include/CanDriver.hpp].  The driver is a thin layer over Linux
    system calls, so the embedding is a state-and-exception monad over

    - the fields of the [CanDriver] object,
    - the log of the system calls issued so far, in program order,
    - the log of mutex acquisitions and releases, and
    - [errno].

    The operating system is an arbitrary deterministic function from the
    history of system calls and the call being made to the reply of that
    call; every theorem holds for all of them. *)

From Stdlib Require Import ZArith List String Bool Lia.
Import ListNotations.
Local Open Scope Z_scope.

(** ** Machine integers *)

(** Conversion of an integer to [int32_t], [uint32_t] and [int64_t]:
    the value modulo 2^w, read as signed or unsigned. *)
Definition to_int32 (z : Z) : Z := (z + 2 ^ 31) mod 2 ^ 32 - 2 ^ 31.
Definition to_uint32 (z : Z) : Z := z mod 2 ^ 32.
Definition to_int64 (z : Z) : Z := (z + 2 ^ 63) mod 2 ^ 64 - 2 ^ 63.

Definition in_int32 (z : Z) : Prop := - 2 ^ 31 <= z < 2 ^ 31.

(** ** Constants of the Linux headers *)

Module Linux.
Definition PF_CAN : Z := 29.
Definition AF_CAN : Z := 29.
Definition SOCK_RAW : Z := 3.
Definition CAN_RAW : Z := 1.
Definition SOL_CAN_RAW : Z := 101.
Definition CAN_RAW_FILTER : Z := 1.
Definition SIOCGIFINDEX : Z := 0x8933.
Definition F_GETFL : Z := 3.
Definition F_SETFL : Z := 4.
Definition O_NONBLOCK : Z := 0x800.
Definition CAN_SFF_MASK : Z := 0x7FF.
Definition CAN_EFF_FLAG : Z := 0x80000000.
End Linux.
Import Linux.

(** [struct can_frame] of <linux/can.h>: a 32-bit identifier with the
    flag bits, the data length code, three bytes of padding and eight
    data bytes. *)
Record can_frame : Type := mk_can_frame {
  can_id : Z;
  can_dlc : Z;
  pad__ : Z;
  res0__ : Z;
  res1__ : Z;
  data : list Z
}.

(** [sizeof(can_frame)]: 4 + 1 + 1 + 1 + 1 + 8 bytes. *)
Definition sizeof_can_frame : Z := 4 + 1 + 1 + 1 + 1 + 8.

(** The frame after [memset(&canFrame, 0, sizeof(can_frame))]. *)
Definition zero_frame : can_frame :=
  mk_can_frame 0 0 0 0 0 [0; 0; 0; 0; 0; 0; 0; 0].

(** [struct can_filter]: two [canid_t]. *)
Record can_filter : Type := mk_can_filter {
  filter_can_id : Z;
  filter_can_mask : Z
}.
Definition sizeof_can_filter : Z := 4 + 4.

(** [struct sockaddr_can], the fields the driver assigns. *)
Record sockaddr_can : Type := mk_sockaddr_can {
  can_family : Z;
  can_ifindex : Z
}.
Definition sizeof_sockaddr_can : Z := 24.

Record timeval : Type := mk_timeval { tv_sec : Z; tv_usec : Z }.

(** ** The value types [CanId] and [CanMessage] *)

(** Modelled from the spec: [CanId.hpp] is not among the sources.  The
    frame identifier is "a 32-bit-range identifier", compared numerically
    against the standard-frame mask; the driver converts it to [uint32_t]
    (in [sendMessage] and when it is assigned to [can_filter::can_id]) and
    to [int32_t] (as the argument of [setCanFilterMask]). *)
Record CanId : Type := mkCanId { identifier : Z }.

Definition CanId_to_uint32 (c : CanId) : Z := to_uint32 (identifier c).
Definition CanId_to_int32 (c : CanId) : Z := to_int32 (identifier c).

(** Modelled from the spec: [CanMessage.hpp] is not among the sources.
    The message exposes its identifier, its payload as a byte sequence and
    a raw-frame view; the three are independent here, so that a theorem
    about every [CanMessage] holds whatever the accessors return. *)
Record CanMessage : Type := mkCanMessage {
  getCanId : CanId;
  getFrameData : list Z;
  getRawFrame : can_frame
}.

(** Modelled from the spec: the constructor of [CanMessage] from the raw
    frame, used on the receive path; the raw frame of the message is the
    frame it was built from. *)
Definition CanMessage_of_frame (f : can_frame) : CanMessage :=
  mkCanMessage (mkCanId (can_id f))
               (firstn (Z.to_nat (can_dlc f)) (data f))
               f.

(** ** Exceptions *)

Inductive fmt_arg : Type :=
| ArgInt (z : Z)
| ArgStr (s : string)
| ArgStrerror (errnum : Z).

(** The text of an exception: a literal, or the result of
    [formatString(format, args...)], kept as its format and arguments. *)
Inductive what : Type :=
| Literal (s : string)
| Formatted (format : string) (args : list fmt_arg).

Definition formatString (format : string) (args : list fmt_arg) : what :=
  Formatted format args.

Inductive exn : Type :=
| InvalidSocketException (message : what) (socket : Z)
| CanException (message : what) (socket : Z)
| CanInitException (message : what)
| CanCloseException (message : what).

(** The exceptions the driver throws, by the place that throws them. *)
Definition invalid_socket (fd : Z) : exn :=
  InvalidSocketException (Literal "Invalid socket!") fd.
Definition read_failed (e fd : Z) : exn :=
  CanException (formatString "FAILED to read from CAN! Error: %d => %s"
                             [ArgInt e; ArgStrerror e]) fd.
Definition invalid_data_length (max fd : Z) : exn :=
  CanException
    (formatString "INVALID data length! Message must be smaller than %d bytes!"
                  [ArgInt max]) fd.
Definition write_failed (e fd : Z) : exn :=
  CanException (formatString "FAILED to write data to socket! Error: %d => %s"
                             [ArgInt e; ArgStrerror e]) fd.
Definition filter_failed (mask fd e : Z) : exn :=
  CanInitException
    (formatString
       "FAILED to set CAN filter mask %x on socket %d! Error: %d => %s"
       [ArgInt mask; ArgInt fd; ArgInt e; ArgStrerror e]).
Definition socket_failed (e : Z) : exn :=
  CanInitException
    (formatString "FAILED to initialise socketcan! Error: %d => %s"
                  [ArgInt e; ArgStrerror e]).
Definition ioctl_failed (canInterface : string) (e : Z) : exn :=
  CanInitException
    (formatString
       "FAILED to perform IO control operation on socket %s! Error: %d => %s"
       [ArgStr canInterface; ArgInt e; ArgStrerror e]).
Definition bind_failed (e : Z) : exn :=
  CanInitException
    (formatString "FAILED to bind to socket CAN! Error: %d => %s"
                  [ArgInt e; ArgStrerror e]).
Definition close_invalid : exn :=
  CanCloseException (Literal "Cannot close invalid socket!").
Definition close_failed (e : Z) : exn :=
  CanCloseException
    (formatString "FAILED to close CAN socket! Error: %d => %s"
                  [ArgInt e; ArgStrerror e]).

Definition is_InvalidSocketException (e : exn) : bool :=
  match e with InvalidSocketException _ _ => true | _ => false end.
Definition is_CanException (e : exn) : bool :=
  match e with CanException _ _ => true | _ => false end.
Definition is_CanInitException (e : exn) : bool :=
  match e with CanInitException _ => true | _ => false end.
Definition is_CanCloseException (e : exn) : bool :=
  match e with CanCloseException _ => true | _ => false end.

(** ** System calls and the operating system *)

Inductive syscall : Type :=
| Socket (domain type protocol : Z)
| Ioctl (fd request : Z) (ifr_name : string)
| Fcntl (fd cmd : Z) (arg : option Z)
| Setsockopt (fd level optname : Z) (optval : can_filter) (optlen : Z)
| Bind (fd : Z) (addr : sockaddr_can) (addrlen : Z)
| Select (nfds : Z) (readfds : list Z) (timeout : timeval)
| Read (fd count : Z)
| Write (fd : Z) (buf : can_frame) (count : Z)
| Close (fd : Z).

(** What a call leaves behind: its return value, the frame it stored in
    the buffer of a [read], the interface index it stored in the request of
    an [ioctl], and [errno]. *)
Record reply : Type := mk_reply {
  ret : Z;
  frame_out : can_frame;
  ifindex_out : Z;
  errno_out : Z
}.

(** The operating system: the reply to a call, given the calls before. *)
Definition OS : Type := list syscall -> syscall -> reply.

Definition is_Read (c : syscall) : bool :=
  match c with Read _ _ => true | _ => false end.

(** ** The driver object and the state of a run *)

Record CanDriver : Type := mkCanDriver {
  _defaultSenderId : CanId;
  _canFilterMask : Z;
  _canProtocol : Z;
  _socketFd : Z;
  _queueSize : Z;
  _canInterface : string
}.

Inductive mutex : Type := _lock | _lockSend.
Inductive guard_event : Type := Acquire (m : mutex) | Release (m : mutex).

Record state : Type := mk_state {
  self : CanDriver;
  calls : list syscall;
  guards : list guard_event;
  errno : Z
}.

Definition CAN_MAX_DATA_LENGTH : Z := 8.
Definition CAN_SOCK_RAW : Z := CAN_RAW.
Definition CAN_SOCK_SEVEN : Z := 7.

(** ** The monad: state, with exceptions that keep the state *)

Definition M (A : Type) : Type := state -> (exn + A) * state.

Definition pure {A} (a : A) : M A := fun s => (inr a, s).
Definition throw {A} (e : exn) : M A := fun s => (inl e, s).
Definition bind {A B} (m : M A) (k : A -> M B) : M B :=
  fun s => match m s with
           | (inr a, s') => k a s'
           | (inl e, s') => (inl e, s')
           end.

Declare Scope drv_scope.
Delimit Scope drv_scope with drv.
Notation "x <- m ;; k" := (bind m (fun x => k))
  (at level 61, m at next level, right associativity) : drv_scope.
Notation "m ;;; k" := (bind m (fun _ => k))
  (at level 61, right associativity) : drv_scope.
Local Open Scope drv_scope.

Definition get_self : M CanDriver := fun s => (inr (self s), s).
Definition put_self (d : CanDriver) : M unit :=
  fun s => (inr tt, mk_state d (calls s) (guards s) (errno s)).
Definition get_errno : M Z := fun s => (inr (errno s), s).

Definition set_socketFd (v : Z) : M unit :=
  d <- get_self ;;
  put_self (mkCanDriver (_defaultSenderId d) (_canFilterMask d) (_canProtocol d)
                        v (_queueSize d) (_canInterface d)).
Definition set_queueSize (v : Z) : M unit :=
  d <- get_self ;;
  put_self (mkCanDriver (_defaultSenderId d) (_canFilterMask d) (_canProtocol d)
                        (_socketFd d) v (_canInterface d)).
Definition set_canFilterMask (v : Z) : M unit :=
  d <- get_self ;;
  put_self (mkCanDriver (_defaultSenderId d) v (_canProtocol d)
                        (_socketFd d) (_queueSize d) (_canInterface d)).
Definition setDefaultSenderId (id : CanId) : M unit :=
  d <- get_self ;;
  put_self (mkCanDriver id (_canFilterMask d) (_canProtocol d)
                        (_socketFd d) (_queueSize d) (_canInterface d)).

(** [unique_lock<mutex> locky(m)]: the mutex is taken here and released
    when the scope is left, by a return or by an exception. *)
Definition log_guard (g : guard_event) (s : state) : state :=
  mk_state (self s) (calls s) (guards s ++ [g]) (errno s).
Definition unique_lock {A} (m : mutex) (body : M A) : M A :=
  fun s => let (r, s') := body (log_guard (Acquire m) s) in
           (r, log_guard (Release m) s').

(** ** The operations of [CanDriver] *)

Section Driver.

Variable os : OS.

(** One system call: the operating system answers from the history, the
    call is logged and [errno] is what the call left. *)
Definition sys (c : syscall) : M reply :=
  fun s => let r := os (calls s) c in
           (inr r, mk_state (self s) (calls s ++ [c]) (guards s) (errno_out r)).

(** The calls with their C return types: [int], or [ssize_t] for [read]
    and [write]. *)
Definition socket (domain type protocol : Z) : M Z :=
  r <- sys (Socket domain type protocol) ;; pure (to_int32 (ret r)).
Definition ioctl (fd request : Z) (ifr_name : string) : M (Z * Z) :=
  r <- sys (Ioctl fd request ifr_name) ;;
  pure (to_int32 (ret r), to_int32 (ifindex_out r)).
Definition fcntl (fd cmd : Z) (arg : option Z) : M Z :=
  r <- sys (Fcntl fd cmd arg) ;; pure (to_int32 (ret r)).
Definition setsockopt (fd level optname : Z) (optval : can_filter)
           (optlen : Z) : M Z :=
  r <- sys (Setsockopt fd level optname optval optlen) ;;
  pure (to_int32 (ret r)).
Definition bind_socket (fd : Z) (addr : sockaddr_can) (addrlen : Z) : M Z :=
  r <- sys (Bind fd addr addrlen) ;; pure (to_int32 (ret r)).
Definition select (nfds : Z) (readfds : list Z) (timeout : timeval) : M Z :=
  r <- sys (Select nfds readfds timeout) ;; pure (to_int32 (ret r)).
Definition read (fd count : Z) : M (Z * can_frame) :=
  r <- sys (Read fd count) ;; pure (to_int64 (ret r), frame_out r).
Definition write (fd : Z) (buf : can_frame) (count : Z) : M Z :=
  r <- sys (Write fd buf count) ;; pure (to_int64 (ret r)).
Definition close (fd : Z) : M Z :=
  r <- sys (Close fd) ;; pure (to_int32 (ret r)).

(** [bool CanDriver::waitForMessages(milliseconds timeout)] *)
Definition waitForMessages (timeout : Z) : M bool :=
  d <- get_self ;;
  if _socketFd d <? 0
  then throw (invalid_socket (_socketFd d))
  else
    unique_lock _lock
      (let waitTime :=
         mk_timeval (Z.quot timeout 1000) (to_int64 (timeout * 1000)) in
       n <- select (to_int32 (_socketFd d + 1)) [_socketFd d] waitTime ;;
       set_queueSize n ;;;
       d' <- get_self ;;
       pure (_queueSize d' >? 0)).

(** [CanMessage CanDriver::readMessageLock(bool const lock)] *)
Definition readMessageLock (lock : bool) : M CanMessage :=
  (if lock then unique_lock _lock else fun body => body)
    (d <- get_self ;;
     if 0 >? _socketFd d
     then throw (invalid_socket (_socketFd d))
     else
       r <- read (_socketFd d) sizeof_can_frame ;;
       let readBytes := to_int32 (fst r) in
       let canFrame := snd r in
       if 0 >? readBytes
       then
         e <- get_errno ;;
         throw (read_failed e (_socketFd d))
       else pure (CanMessage_of_frame canFrame)).

(** [CanMessage CanDriver::readMessage()] *)
Definition readMessage : M CanMessage := readMessageLock true.

(** The frame handed to [write]: the raw frame of the message, with
    [CAN_EFF_FLAG] or-ed into [can_id] when the test of the source
    holds. *)
Definition or_eff_flag (f : can_frame) : can_frame :=
  mk_can_frame (Z.lor (can_id f) CAN_EFF_FLAG) (can_dlc f)
               (pad__ f) (res0__ f) (res1__ f) (data f).

Definition wants_eff (message : CanMessage) (forceExtended : bool) : bool :=
  forceExtended || (CanId_to_uint32 (getCanId message) >? CAN_SFF_MASK).

Definition wire_frame (message : CanMessage) (forceExtended : bool)
  : can_frame :=
  let canFrame := getRawFrame message in
  if wants_eff message forceExtended then or_eff_flag canFrame else canFrame.

(** [int32_t CanDriver::sendMessage(const CanMessage message,
    bool forceExtended)] *)
Definition sendMessage (message : CanMessage) (forceExtended : bool) : M Z :=
  d <- get_self ;;
  if _socketFd d <? 0
  then throw (invalid_socket (_socketFd d))
  else
    unique_lock _lockSend
      (if Z.of_nat (List.length (getFrameData message)) >? CAN_MAX_DATA_LENGTH
       then
         throw (invalid_data_length CAN_MAX_DATA_LENGTH (_socketFd d))
       else
         let canFrame := wire_frame message forceExtended in
         w <- write (_socketFd d) canFrame sizeof_can_frame ;;
         let bytesWritten := to_int32 w in
         if bytesWritten =? -1
         then
           e <- get_errno ;;
           throw (write_failed e (_socketFd d))
         else pure bytesWritten).

(** The loop of [sendMessageQueue]: while the queue is not empty, send
    its front, add the bytes written to the total, pop. *)
Fixpoint sendMessageQueue_loop (messages : list CanMessage)
         (forceExtended : bool) (totalBytesWritten : Z) : M Z :=
  match messages with
  | [] => pure totalBytesWritten
  | front :: rest =>
      n <- sendMessage front forceExtended ;;
      sendMessageQueue_loop rest forceExtended
                            (to_int32 (totalBytesWritten + n))
  end.

(** [int32_t CanDriver::sendMessageQueue(queue<CanMessage> messages,
    milliseconds delay, bool forceExtended)] *)
Definition sendMessageQueue (messages : list CanMessage) (delay : Z)
           (forceExtended : bool) : M Z :=
  d <- get_self ;;
  if _socketFd d <? 0
  then throw (invalid_socket (_socketFd d))
  else sendMessageQueue_loop messages forceExtended 0.

(** The loop of [readQueuedMessages]: [i] counts down to zero, one
    [readMessageLock(false)] per round, appended to the queue. *)
Fixpoint readQueuedMessages_loop (i : nat) (messages : list CanMessage)
  : M (list CanMessage) :=
  match i with
  | O => pure messages
  | S i' =>
      m <- readMessageLock false ;;
      readQueuedMessages_loop i' (messages ++ [m])
  end.

(** [queue<CanMessage> CanDriver::readQueuedMessages()]; the loop runs
    from [i = _queueSize] while [0 < i]. *)
Definition readQueuedMessages : M (list CanMessage) :=
  d <- get_self ;;
  if _socketFd d <? 0
  then throw (invalid_socket (_socketFd d))
  else
    unique_lock _lock
      (readQueuedMessages_loop (Z.to_nat (_queueSize d)) []).

(** [void CanDriver::setCanFilterMask(const int32_t mask,
    const int32_t id)] *)
Definition setCanFilterMask (mask id : Z) : M unit :=
  d <- get_self ;;
  if _socketFd d <? 0
  then throw (invalid_socket (_socketFd d))
  else
    unique_lock _lock
      (let canFilter :=
         mk_can_filter
           (if negb (id =? 0) then to_uint32 id
            else CanId_to_uint32 (_defaultSenderId d))
           (to_uint32 mask) in
       r <- setsockopt (_socketFd d) SOL_CAN_RAW CAN_RAW_FILTER canFilter
                       sizeof_can_filter ;;
       if r =? -1
       then
         e <- get_errno ;;
         throw (filter_failed mask (_socketFd d) e)
       else set_canFilterMask mask).

(** [void CanDriver::initialiseSocketCan()] *)
Definition initialiseSocketCan : M unit :=
  d <- get_self ;;
  fd <- socket PF_CAN SOCK_RAW (_canProtocol d) ;;
  set_socketFd fd ;;;
  d <- get_self ;;
  if _socketFd d =? -1
  then
    e <- get_errno ;;
    throw (socket_failed e)
  else
    r <- ioctl (_socketFd d) SIOCGIFINDEX (_canInterface d) ;;
    if fst r =? -1
    then
      e <- get_errno ;;
      throw (ioctl_failed (_canInterface d) e)
    else
      fdOptions <- fcntl (_socketFd d) F_GETFL None ;;
      let fdOptions := Z.lor fdOptions O_NONBLOCK in
      tmpReturn <- fcntl (_socketFd d) F_SETFL (Some fdOptions) ;;
      let address := mk_sockaddr_can AF_CAN (snd r) in
      setCanFilterMask (_canFilterMask d)
                       (CanId_to_int32 (_defaultSenderId d)) ;;;
      b <- bind_socket (_socketFd d) address sizeof_sockaddr_can ;;
      if b =? -1
      then
        e <- get_errno ;;
        throw (bind_failed e)
      else pure tt.

(** [void CanDriver::uninitialiseSocketCan()] *)
Definition uninitialiseSocketCan : M unit :=
  unique_lock _lock
    (d <- get_self ;;
     if _socketFd d <=? 0
     then throw close_invalid
     else
       r <- close (_socketFd d) ;;
       if r =? -1
       then
         e <- get_errno ;;
         throw (close_failed e)
       else set_socketFd (-1)).

(** The four-argument constructor: the members are initialised, with
    [_socketFd(-1)], and [initialiseSocketCan] runs.  [_queueSize] has no
    initialiser; [queueSize0] is whatever the storage holds. *)
Definition CanDriver_new4 (canInterface : string) (canProtocol filterMask : Z)
           (defaultSenderId : CanId) (queueSize0 : Z) : M unit :=
  put_self (mkCanDriver defaultSenderId filterMask canProtocol (-1)
                        queueSize0 canInterface) ;;;
  initialiseSocketCan.

(** The three-argument constructor delegates with mask 0, match all. *)
Definition CanDriver_new3 (canInterface : string) (canProtocol : Z)
           (defaultSenderId : CanId) (queueSize0 : Z) : M unit :=
  CanDriver_new4 canInterface canProtocol 0 defaultSenderId queueSize0.

(** [virtual ~CanDriver() { uninitialiseSocketCan(); }] *)
Definition CanDriver_delete : M unit := uninitialiseSocketCan.

End Driver.

(** ** Reading a run *)

(** The channel is open when its handle is not negative: the test
    [_socketFd < 0] of the I/O operations fails. *)
Definition is_open (s : state) : Prop := 0 <= _socketFd (self s).

Definition result {A} (m : M A) (s : state) : exn + A := fst (m s).
Definition after {A} (m : M A) (s : state) : state := snd (m s).

(** The exception a run ended with is of the given class. *)
Definition raises {A} (m : M A) (s : state) (cls : exn -> bool) : Prop :=
  match result m s with inl e => cls e = true | inr _ => False end.

Definition returns {A} (m : M A) (s : state) (a : A) : Prop :=
  result m s = inr a.

Definition throws {A} (m : M A) (s : state) (e : exn) : Prop :=
  result m s = inl e.

(** The replies to [n] successive reads of one frame from [fd], the first
    of them made after the history [h]. *)
Fixpoint read_replies (os : OS) (h : list syscall) (fd : Z) (n : nat)
  : list reply :=
  match n with
  | O => []
  | S n' =>
      let c := Read fd sizeof_can_frame in
      os h c :: read_replies os (h ++ [c]) fd n'
  end.

(** The message [readMessageLock] builds from the frame a [read] stored. *)
Definition wrap_reply (r : reply) : CanMessage :=
  CanMessage_of_frame (frame_out r).

(** The bytes [read] reported, as [readMessageLock] holds them in its
    [int32_t readBytes]. *)
Definition readBytes_of (r : reply) : Z := to_int32 (to_int64 (ret r)).

(** Single-frame sends of the messages of a list, one after the other from
    state [s], each returning a byte count: the counts and the state
    reached. *)
Inductive sent_all (os : OS) (forceExtended : bool)
  : state -> list CanMessage -> list Z -> state -> Prop :=
| sent_none s : sent_all os forceExtended s [] [] s
| sent_next s message n s' rest ns s'' :
    sendMessage os message forceExtended s = (inr n, s') ->
    sent_all os forceExtended s' rest ns s'' ->
    sent_all os forceExtended s (message :: rest) (n :: ns) s''.

Definition list_sum (ns : list Z) : Z := fold_right Z.add 0 ns.

(** The [write] calls that transmit the messages of a list, in order. *)
Definition writes_of (fd : Z) (forceExtended : bool)
           (messages : list CanMessage) : list syscall :=
  map (fun m => Write fd (wire_frame m forceExtended) sizeof_can_frame) messages.

(** ** Operating systems to run the driver against *)

Definition reply_ret (z : Z) : reply := mk_reply z zero_frame 0 0.

(** The [n]-th frame waiting on the bus: identifier [0x100 + n], one data
    byte [n]. *)
Definition queued_frame (n : Z) : can_frame :=
  mk_can_frame (0x100 + n) 1 0 0 0 [n; 0; 0; 0; 0; 0; 0; 0].

Definition reads_so_far (h : list syscall) : Z :=
  Z.of_nat (List.length (filter is_Read h)).

(** Every call succeeds: [socket] gives descriptor 3, the interface has
    index 2, [select] reports [ready] descriptors, [read] delivers the
    waiting frames in order, [write] takes the whole buffer. *)
Definition os_ok (ready : Z) : OS :=
  fun h c =>
    match c with
    | Socket _ _ _ => reply_ret 3
    | Ioctl _ _ _ => mk_reply 0 zero_frame 2 0
    | Fcntl _ cmd _ => if cmd =? F_GETFL then reply_ret 2 else reply_ret 0
    | Select _ _ _ => reply_ret ready
    | Read _ count => mk_reply count (queued_frame (reads_so_far h)) 0 0
    | Write _ _ count => reply_ret count
    | _ => reply_ret 0
    end.

(** As [os_ok], but the calls selected by [fails] return -1 with [errno]
    set to [err]. *)
Definition os_failing (fails : list syscall -> syscall -> bool) (err : Z)
           (ready : Z) : OS :=
  fun h c => if fails h c then mk_reply (-1) zero_frame 0 err
             else os_ok ready h c.

Definition is_Select (c : syscall) : bool :=
  match c with Select _ _ _ => true | _ => false end.

(** The switch to non-blocking mode fails: [fcntl(F_SETFL)] returns -1 with
    [errno] 9; everything else succeeds. *)
Definition os_setfl_fails : OS :=
  os_failing (fun _ c => match c with
                         | Fcntl _ cmd _ => cmd =? F_SETFL
                         | _ => false
                         end) 9 0.

(** Every [read] fails with [errno] 11 although [select] reports one
    descriptor ready. *)
Definition os_read_fails : OS := os_failing (fun _ c => is_Read c) 11 1.

(** A driver object on interface can0 with the given handle and pending
    count. *)
Definition a_driver (fd queueSize : Z) : CanDriver :=
  mkCanDriver (mkCanId 0x123) 0x7FF CAN_SOCK_RAW fd queueSize "can0".

Definition a_state (fd queueSize : Z) : state :=
  mk_state (a_driver fd queueSize) [] [] 0.

Definition msg (id : Z) (payload : list Z) : CanMessage :=
  mkCanMessage (mkCanId id) payload
               (mk_can_frame id (Z.of_nat (List.length payload)) 0 0 0
                             (firstn 8 (payload ++ repeat 0 8))).

(** ** Observers of the object, of exceptions and of the logs *)

(** The getters of [CanDriver.hpp]. *)
Definition getDefaultSenderId (d : CanDriver) : CanId := _defaultSenderId d.
Definition getFilterMask (d : CanDriver) : Z := _canFilterMask d.
Definition getMessageQueueSize (d : CanDriver) : Z := _queueSize d.
Definition getSocketFd (d : CanDriver) : Z := _socketFd d.

(** [CanException::getSocket()], and the socket an [InvalidSocketException]
    was constructed with; the other two classes carry none. *)
Definition getSocket (e : exn) : option Z :=
  match e with
  | CanException _ socket => Some socket
  | InvalidSocketException _ socket => Some socket
  | CanInitException _ => None
  | CanCloseException _ => None
  end.

Definition is_Write_call (c : syscall) : bool :=
  match c with Write _ _ _ => true | _ => false end.

Definition is_Close (c : syscall) : bool :=
  match c with Close _ => true | _ => false end.




(** [k] scopes of a [unique_lock] on [m], one after the other. *)
Definition paired (m : mutex) (k : nat) : list guard_event :=
  List.concat (repeat [Acquire m; Release m] k).


(** The fields of the object other than the pending count and the filter
    mask. *)
Definition same_channel (d d' : CanDriver) : Prop :=
  _socketFd d' = _socketFd d
  /\ _defaultSenderId d' = _defaultSenderId d
  /\ _canProtocol d' = _canProtocol d
  /\ _canInterface d' = _canInterface d.

(** The duration a [timeval] stands for, in microseconds. *)
Definition timeval_usec (t : timeval) : Z := tv_sec t * 1000000 + tv_usec t.

(** An operating system whose [write] always takes the whole buffer. *)
Definition writes_whole (os : OS) : Prop :=
  forall h fd buf count, ret (os h (Write fd buf count)) = count.

(** ** Facts about the machine integers *)

Lemma to_int32_id z : in_int32 z -> to_int32 z = z.
Proof.
  unfold in_int32, to_int32. intros H.
  rewrite Z.mod_small by lia. lia.
Qed.

Lemma to_uint32_small z : 0 <= z < 2 ^ 32 -> to_uint32 z = z.
Proof. unfold to_uint32. intros H. now rewrite Z.mod_small. Qed.

(** ** Single-frame send *)

Ltac unfold_monad :=
  cbv beta iota zeta delta
    [result after raises returns bind pure throw get_self put_self
     get_errno unique_lock log_guard set_socketFd set_queueSize
     set_canFilterMask sys socket ioctl fcntl setsockopt bind_socket
     select read write close];
  cbn [self calls guards errno fst snd].

Ltac not_negative H :=
  match type of H with
  | is_open ?s =>
      let E := fresh "Efd" in
      assert (E : (_socketFd (self s) <? 0) = false)
        by (apply Z.ltb_ge; exact H)
  end.

(** What [sendMessage] does on an open channel with a payload of at most
    eight bytes: one [write] of the whole frame, whose result decides. *)
Lemma sendMessage_open_small (os : OS) (message : CanMessage)
      (forceExtended : bool) (s : state) :
  is_open s ->
  (Z.of_nat (List.length (getFrameData message)) <= CAN_MAX_DATA_LENGTH) ->
  let fd := _socketFd (self s) in
  let c := Write fd (wire_frame message forceExtended) sizeof_can_frame in
  let r := os (calls s) c in
  let bytesWritten := to_int32 (to_int64 (ret r)) in
  let s' := mk_state (self s) (calls s ++ [c])
                     (guards s ++ [Acquire _lockSend; Release _lockSend])
                     (errno_out r) in
  sendMessage os message forceExtended s =
  (if bytesWritten =? -1 then inl (write_failed (errno_out r) fd)
   else inr bytesWritten, s').
Proof.
  intros Hopen Hlen. not_negative Hopen.
  assert (Elen : (Z.of_nat (List.length (getFrameData message))
                  >? CAN_MAX_DATA_LENGTH) = false)
    by (rewrite Z.gtb_ltb; apply Z.ltb_ge; lia).
  unfold sendMessage. unfold_monad.
  rewrite Efd, Elen. unfold_monad.
  destruct (to_int32 _ =? -1); unfold_monad; rewrite <- app_assoc; reflexivity.
Qed.

(** A payload of more than eight bytes is refused under the send guard,
    before the frame is even built. *)
Lemma sendMessage_open_long (os : OS) (message : CanMessage)
      (forceExtended : bool) (s : state) :
  is_open s ->
  CAN_MAX_DATA_LENGTH < Z.of_nat (List.length (getFrameData message)) ->
  sendMessage os message forceExtended s =
  (inl (invalid_data_length CAN_MAX_DATA_LENGTH (_socketFd (self s))),
   mk_state (self s) (calls s)
            (guards s ++ [Acquire _lockSend; Release _lockSend]) (errno s)).
Proof.
  intros Hopen Hlen. not_negative Hopen.
  assert (Elen : (Z.of_nat (List.length (getFrameData message))
                  >? CAN_MAX_DATA_LENGTH) = true)
    by (rewrite Z.gtb_ltb; apply Z.ltb_lt; lia).
  unfold sendMessage. unfold_monad. rewrite Efd, Elen. unfold_monad.
  rewrite <- app_assoc. reflexivity.
Qed.

Lemma sendMessage_closed (os : OS) (message : CanMessage)
      (forceExtended : bool) (s : state) :
  _socketFd (self s) < 0 ->
  sendMessage os message forceExtended s =
  (inl (invalid_socket (_socketFd (self s))), s).
Proof.
  intros Hneg. apply Z.ltb_lt in Hneg.
  unfold sendMessage. unfold_monad. now rewrite Hneg.
Qed.

Lemma or_eff_flag_bit (f : can_frame) :
  Z.testbit (can_id (or_eff_flag f)) 31 = true.
Proof.
  unfold or_eff_flag. cbn [can_id]. rewrite Z.lor_spec.
  change CAN_EFF_FLAG with (2 ^ 31). rewrite Z.pow2_bits_true by lia.
  apply orb_true_r.
Qed.

(** C1.  On an open channel, a message that passes the length check is
    transmitted by exactly one [write], and the frame written is the raw
    frame of the message with [CAN_EFF_FLAG] or-ed into [can_id] when
    [forceExtended] is set or the identifier, as [uint32_t], exceeds
    [CAN_SFF_MASK] = 0x7FF; when [forceExtended] is false and the
    identifier is at most 0x7FF, the frame written is the raw frame
    untouched. *)
Theorem sendMessage_extended_flag (os : OS) (message : CanMessage)
        (forceExtended : bool) (s : state) :
  is_open s ->
  Z.of_nat (List.length (getFrameData message)) <= 8 ->
  exists sent : can_frame,
    calls (after (sendMessage os message forceExtended) s)
    = calls s ++ [Write (_socketFd (self s)) sent sizeof_can_frame]
    /\ (forceExtended = true \/ 0x7FF < CanId_to_uint32 (getCanId message) ->
        can_id sent = Z.lor (can_id (getRawFrame message)) 0x80000000
        /\ Z.testbit (can_id sent) 31 = true
        /\ can_dlc sent = can_dlc (getRawFrame message)
        /\ data sent = data (getRawFrame message))
    /\ (forceExtended = false ->
        CanId_to_uint32 (getCanId message) <= 0x7FF ->
        sent = getRawFrame message).
Proof.
  intros Hopen Hlen.
  pose proof (sendMessage_open_small os message forceExtended s Hopen Hlen)
    as Hrun.
  cbv zeta in Hrun. unfold after. rewrite Hrun. cbn [snd calls].
  eexists. split; [reflexivity|]. unfold wire_frame, wants_eff. cbv zeta.
  split.
  - intros Hcond.
    assert (E : forceExtended
                || (CanId_to_uint32 (getCanId message) >? CAN_SFF_MASK) = true).
    { destruct Hcond as [-> | Hid]; [reflexivity|].
      apply orb_true_iff. right. rewrite Z.gtb_ltb. now apply Z.ltb_lt. }
    rewrite E. repeat split. apply or_eff_flag_bit.
  - intros -> Hid. cbn [orb]. rewrite Z.gtb_ltb.
    replace (CAN_SFF_MASK <? _) with false; [reflexivity|].
    symmetry. apply Z.ltb_ge. exact Hid.
Qed.

Lemma sendMessage_extended_flag_witness :
  is_open (a_state 3 0)
  /\ Z.of_nat (List.length (getFrameData (msg 0x800 [1; 2]))) <= 8
  /\ exists sent : can_frame,
      calls (after (sendMessage (os_ok 0) (msg 0x800 [1; 2]) false)
                   (a_state 3 0))
      = calls (a_state 3 0)
          ++ [Write (_socketFd (self (a_state 3 0))) sent sizeof_can_frame]
      /\ (false = true
          \/ 0x7FF < CanId_to_uint32 (getCanId (msg 0x800 [1; 2])) ->
          can_id sent = Z.lor (can_id (getRawFrame (msg 0x800 [1; 2]))) 0x80000000
          /\ Z.testbit (can_id sent) 31 = true
          /\ can_dlc sent = can_dlc (getRawFrame (msg 0x800 [1; 2]))
          /\ data sent = data (getRawFrame (msg 0x800 [1; 2])))
      /\ (false = false ->
          CanId_to_uint32 (getCanId (msg 0x800 [1; 2])) <= 0x7FF ->
          sent = getRawFrame (msg 0x800 [1; 2])).
Proof.
  assert (Ho : is_open (a_state 3 0)) by (unfold is_open; simpl; lia).
  assert (Hl : Z.of_nat (List.length (getFrameData (msg 0x800 [1; 2]))) <= 8)
    by (simpl; lia).
  split; [exact Ho|]. split; [exact Hl|].
  exact (sendMessage_extended_flag (os_ok 0) (msg 0x800 [1; 2]) false
                                   (a_state 3 0) Ho Hl).
Defined.

(** The frames of the two policies on concrete messages. *)
Example sendMessage_flags_0x800 :
  calls (after (sendMessage (os_ok 0) (msg 0x800 [1; 2]) false) (a_state 3 0))
  = [Write 3 (mk_can_frame 0x80000800 2 0 0 0 [1; 2; 0; 0; 0; 0; 0; 0]) 16].
Proof. reflexivity. Qed.

Example sendMessage_keeps_0x7FF :
  calls (after (sendMessage (os_ok 0) (msg 0x7FF [1; 2]) false) (a_state 3 0))
  = [Write 3 (mk_can_frame 0x7FF 2 0 0 0 [1; 2; 0; 0; 0; 0; 0; 0]) 16].
Proof. reflexivity. Qed.

Example sendMessage_forced_0x7FF :
  calls (after (sendMessage (os_ok 0) (msg 0x7FF [1; 2]) true) (a_state 3 0))
  = [Write 3 (mk_can_frame 0x800007FF 2 0 0 0 [1; 2; 0; 0; 0; 0; 0; 0]) 16].
Proof. reflexivity. Qed.

(** C3.  On an open channel, a payload of more than eight bytes makes
    [sendMessage] throw the data-length [CanException] without any system
    call; a payload of at most eight bytes never throws it, issues exactly
    one [write] whose count is [sizeof(can_frame)] = 16 whatever the
    payload length, and returns what that [write] returned, so 16 when the
    write took the whole frame. *)
Theorem sendMessage_payload_limit (os : OS) (message : CanMessage)
        (forceExtended : bool) (s : state) :
  is_open s ->
  let len := Z.of_nat (List.length (getFrameData message)) in
  let run := sendMessage os message forceExtended in
  (8 < len ->
   result run s = inl (invalid_data_length 8 (_socketFd (self s)))
   /\ calls (after run s) = calls s)
  /\ (len <= 8 ->
      result run s <> inl (invalid_data_length 8 (_socketFd (self s)))
      /\ exists sent : can_frame,
          let c := Write (_socketFd (self s)) sent sizeof_can_frame in
          calls (after run s) = calls s ++ [c]
          /\ (ret (os (calls s) c) = sizeof_can_frame ->
              returns run s sizeof_can_frame)
          /\ (to_int32 (to_int64 (ret (os (calls s) c))) <> -1 ->
              returns run s (to_int32 (to_int64 (ret (os (calls s) c)))))).
Proof.
  intros Hopen len run. split; intros Hlen.
  - unfold run, result, after.
    rewrite (sendMessage_open_long os message forceExtended s Hopen Hlen).
    split; reflexivity.
  - pose proof (sendMessage_open_small os message forceExtended s Hopen Hlen)
      as Hrun.
    cbv zeta in Hrun. unfold run, returns, result, after. rewrite Hrun.
    cbn [fst snd calls]. split.
    + destruct (_ =? -1); discriminate.
    + eexists. cbv zeta. split; [reflexivity|]. split.
      * intros ->. reflexivity.
      * intros Hne. apply Z.eqb_neq in Hne. now rewrite Hne.
Qed.

Lemma sendMessage_payload_limit_witness :
  is_open (a_state 3 0)
  /\ result (sendMessage (os_ok 0) (msg 0x42 [1; 2; 3; 4; 5; 6; 7; 8; 9]) false)
            (a_state 3 0)
     = inl (invalid_data_length 8 3)
  /\ calls (after (sendMessage (os_ok 0) (msg 0x42 [1; 2; 3; 4; 5; 6; 7; 8; 9])
                               false) (a_state 3 0)) = []
  /\ returns (sendMessage (os_ok 0) (msg 0x42 [1; 2; 3]) false) (a_state 3 0)
             sizeof_can_frame.
Proof.
  assert (Ho : is_open (a_state 3 0)) by (unfold is_open; simpl; lia).
  split; [exact Ho|].
  pose proof (sendMessage_payload_limit
                (os_ok 0) (msg 0x42 [1; 2; 3; 4; 5; 6; 7; 8; 9]) false
                (a_state 3 0) Ho) as Hlong.
  pose proof (sendMessage_payload_limit
                (os_ok 0) (msg 0x42 [1; 2; 3]) false (a_state 3 0) Ho) as Hshort.
  cbv zeta in Hlong, Hshort.
  destruct Hlong as [Hlong _]. destruct Hshort as [_ Hshort].
  destruct (Hlong ltac:(simpl; lia)) as [Hr Hc].
  destruct (Hshort ltac:(simpl; lia)) as [_ [sent [Hcalls [Hfull _]]]].
  split; [exact Hr|]. split; [exact Hc|].
  apply Hfull.
  assert (Hsent : sent = getRawFrame (msg 0x42 [1; 2; 3])).
  { vm_compute in Hcalls. now injection Hcalls as <-. }
  rewrite Hsent. reflexivity.
Defined.

(** ** Operations on a channel that is not open *)

Lemma waitForMessages_closed (os : OS) (timeout : Z) (s : state) :
  _socketFd (self s) < 0 ->
  waitForMessages os timeout s = (inl (invalid_socket (_socketFd (self s))), s).
Proof.
  intros Hneg. apply Z.ltb_lt in Hneg.
  unfold waitForMessages. unfold_monad. now rewrite Hneg.
Qed.

Lemma readMessageLock_closed (os : OS) (lock : bool) (s : state) :
  _socketFd (self s) < 0 ->
  result (readMessageLock os lock) s = inl (invalid_socket (_socketFd (self s)))
  /\ calls (after (readMessageLock os lock) s) = calls s
  /\ self (after (readMessageLock os lock) s) = self s.
Proof.
  intros Hneg.
  assert (E : (0 >? _socketFd (self s)) = true)
    by (rewrite Z.gtb_ltb; now apply Z.ltb_lt).
  unfold readMessageLock.
  destruct lock; unfold_monad; rewrite E; unfold_monad; repeat split.
Qed.

Lemma sendMessageQueue_closed (os : OS) (messages : list CanMessage)
      (delay : Z) (forceExtended : bool) (s : state) :
  _socketFd (self s) < 0 ->
  sendMessageQueue os messages delay forceExtended s
  = (inl (invalid_socket (_socketFd (self s))), s).
Proof.
  intros Hneg. apply Z.ltb_lt in Hneg.
  unfold sendMessageQueue. unfold_monad. now rewrite Hneg.
Qed.

Lemma readQueuedMessages_closed (os : OS) (s : state) :
  _socketFd (self s) < 0 ->
  readQueuedMessages os s = (inl (invalid_socket (_socketFd (self s))), s).
Proof.
  intros Hneg. apply Z.ltb_lt in Hneg.
  unfold readQueuedMessages. unfold_monad. now rewrite Hneg.
Qed.

Lemma setCanFilterMask_closed (os : OS) (mask id : Z) (s : state) :
  _socketFd (self s) < 0 ->
  setCanFilterMask os mask id s = (inl (invalid_socket (_socketFd (self s))), s).
Proof.
  intros Hneg. apply Z.ltb_lt in Hneg.
  unfold setCanFilterMask. unfold_monad. now rewrite Hneg.
Qed.

(** [uninitialiseSocketCan] gives up, without calling [close], on every
    handle that is not positive. *)
Lemma uninitialiseSocketCan_not_positive (os : OS) (s : state) :
  _socketFd (self s) <= 0 ->
  uninitialiseSocketCan os s
  = (inl close_invalid,
     mk_state (self s) (calls s) (guards s ++ [Acquire _lock; Release _lock])
              (errno s)).
Proof.
  intros Hle. apply Z.leb_le in Hle.
  unfold uninitialiseSocketCan. unfold_monad. rewrite Hle. unfold_monad.
  rewrite <- app_assoc. reflexivity.
Qed.

(** C2, as stated, fails for the close operation: on a channel with
    handle -1, [uninitialiseSocketCan] throws a [CanCloseException], which
    is not an [InvalidSocketException]. *)
Lemma close_unopened_is_not_invalid_socket :
  _socketFd (self (a_state (-1) 0)) < 0
  /\ result (uninitialiseSocketCan (os_ok 0)) (a_state (-1) 0)
     = inl (CanCloseException (Literal "Cannot close invalid socket!"))
  /\ ~ raises (uninitialiseSocketCan (os_ok 0)) (a_state (-1) 0)
              is_InvalidSocketException.
Proof.
  split; [simpl; lia|]. split; [reflexivity|].
  unfold raises. cbn. discriminate.
Qed.

(** C2, amended.  On a channel whose handle is negative, every receive,
    send and filter operation ([waitForMessages], [readMessage],
    [sendMessage], [sendMessageQueue], [readQueuedMessages],
    [setCanFilterMask]) throws the [InvalidSocketException] carrying the
    handle and issues no system call; the close operation
    [uninitialiseSocketCan] throws a [CanCloseException] instead, and issues
    no system call either. *)
Theorem closed_channel_operations (os : OS) (s : state)
        (timeout mask id delay : Z) (message : CanMessage)
        (messages : list CanMessage) (forceExtended : bool) :
  _socketFd (self s) < 0 ->
  let invalid := invalid_socket (_socketFd (self s)) in
  (throws (waitForMessages os timeout) s invalid
   /\ calls (after (waitForMessages os timeout) s) = calls s)
  /\ (throws (readMessage os) s invalid
      /\ calls (after (readMessage os) s) = calls s)
  /\ (throws (sendMessage os message forceExtended) s invalid
      /\ calls (after (sendMessage os message forceExtended) s) = calls s)
  /\ (throws (sendMessageQueue os messages delay forceExtended) s invalid
      /\ calls (after (sendMessageQueue os messages delay forceExtended) s)
         = calls s)
  /\ (throws (readQueuedMessages os) s invalid
      /\ calls (after (readQueuedMessages os) s) = calls s)
  /\ (throws (setCanFilterMask os mask id) s invalid
      /\ calls (after (setCanFilterMask os mask id) s) = calls s)
  /\ (raises (uninitialiseSocketCan os) s is_CanCloseException
      /\ calls (after (uninitialiseSocketCan os) s) = calls s).
Proof.
  intros Hneg invalid. unfold invalid, throws, raises, result, after.
  rewrite waitForMessages_closed, sendMessage_closed, sendMessageQueue_closed,
    readQueuedMessages_closed, setCanFilterMask_closed,
    uninitialiseSocketCan_not_positive by lia.
  destruct (readMessageLock_closed os true s Hneg) as (Hr & Hc & _).
  unfold readMessage. unfold result, after in Hr, Hc. rewrite Hr, Hc.
  repeat split.
Qed.

Lemma closed_channel_operations_witness :
  _socketFd (self (a_state (-1) 0)) < 0
  /\ throws (readMessage (os_ok 1)) (a_state (-1) 0) (invalid_socket (-1))
  /\ calls (after (readMessage (os_ok 1)) (a_state (-1) 0)) = []
  /\ throws (sendMessage (os_ok 1) (msg 1 [7]) false) (a_state (-1) 0)
            (invalid_socket (-1))
  /\ raises (uninitialiseSocketCan (os_ok 1)) (a_state (-1) 0)
            is_CanCloseException.
Proof.
  assert (Hneg : _socketFd (self (a_state (-1) 0)) < 0) by (simpl; lia).
  pose proof (closed_channel_operations (os_ok 1) (a_state (-1) 0)
                0 0 0 0 (msg 1 [7]) [] false Hneg) as H.
  cbv zeta in H.
  destruct H as (_ & (Hr1 & Hr2) & (Hs & _) & _ & _ & _ & (Hc & _)).
  split; [exact Hneg|]. split; [exact Hr1|]. split; [exact Hr2|].
  split; [exact Hs|]. exact Hc.
Defined.

(** ** Close *)

Lemma uninitialiseSocketCan_positive (os : OS) (s : state) :
  0 < _socketFd (self s) ->
  let fd := _socketFd (self s) in
  let r := os (calls s) (Close fd) in
  let d := self s in
  uninitialiseSocketCan os s
  = (if to_int32 (ret r) =? -1 then inl (close_failed (errno_out r))
     else inr tt,
     mk_state (if to_int32 (ret r) =? -1 then d
               else mkCanDriver (_defaultSenderId d) (_canFilterMask d)
                                (_canProtocol d) (-1) (_queueSize d)
                                (_canInterface d))
              (calls s ++ [Close fd])
              (guards s ++ [Acquire _lock; Release _lock])
              (errno_out r)).
Proof.
  intros Hpos. cbv zeta.
  assert (E : (_socketFd (self s) <=? 0) = false) by (apply Z.leb_gt; lia).
  unfold uninitialiseSocketCan. unfold_monad. rewrite E. unfold_monad.
  destruct (to_int32 _ =? -1); unfold_monad; rewrite <- app_assoc; reflexivity.
Qed.

(** A close that the operating system accepts resets the handle to -1 and
    a second close then throws the [CanCloseException] of an invalid
    socket, without another [close] call. *)
Lemma close_twice (os : OS) (s : state) :
  0 < _socketFd (self s) ->
  to_int32 (ret (os (calls s) (Close (_socketFd (self s))))) <> -1 ->
  let s1 := after (uninitialiseSocketCan os) s in
  returns (uninitialiseSocketCan os) s tt
  /\ _socketFd (self s1) = -1
  /\ throws (uninitialiseSocketCan os) s1 close_invalid
  /\ calls (after (uninitialiseSocketCan os) s1)
     = calls s ++ [Close (_socketFd (self s))].
Proof.
  intros Hpos Hok. cbv zeta. apply Z.eqb_neq in Hok.
  unfold returns, throws, result, after.
  rewrite (uninitialiseSocketCan_positive os s Hpos). cbv zeta.
  rewrite Hok. cbn [fst snd self _socketFd].
  rewrite uninitialiseSocketCan_not_positive by (cbn; lia).
  repeat split.
Qed.

(** C4, the defect.  Descriptor 0 is an open handle for every other
    operation ([sendMessage] writes to it), but [uninitialiseSocketCan]
    tests [_socketFd <= 0]: it throws the [CanCloseException] of an invalid
    socket, never calls [close], and leaves the handle at 0. *)
Theorem close_descriptor_zero :
  is_open (a_state 0 0)
  /\ returns (sendMessage (os_ok 0) (msg 0x42 [1]) false) (a_state 0 0) 16
  /\ throws (uninitialiseSocketCan (os_ok 0)) (a_state 0 0) close_invalid
  /\ calls (after (uninitialiseSocketCan (os_ok 0)) (a_state 0 0)) = []
  /\ _socketFd (self (after (uninitialiseSocketCan (os_ok 0)) (a_state 0 0))) = 0.
Proof.
  split; [unfold is_open; simpl; lia|]. repeat split.
Qed.

(** The rest of C4 holds: below 0 the close failure is thrown, above 0 it
    is not, and a successful close resets the handle. *)
Lemma close_failure_off_zero (os : OS) (s : state) :
  (_socketFd (self s) < 0 -> throws (uninitialiseSocketCan os) s close_invalid)
  /\ (0 < _socketFd (self s) ->
      ~ throws (uninitialiseSocketCan os) s close_invalid
      /\ calls (after (uninitialiseSocketCan os) s)
         = calls s ++ [Close (_socketFd (self s))]).
Proof.
  unfold throws, result, after. split; intros H.
  - rewrite uninitialiseSocketCan_not_positive by lia. reflexivity.
  - rewrite (uninitialiseSocketCan_positive os s H). cbv zeta. cbn [fst snd calls].
    split; [|reflexivity]. destruct (_ =? -1); discriminate.
Qed.

(** ** Readiness wait *)

Lemma waitForMessages_open (os : OS) (timeout : Z) (s : state) :
  is_open s ->
  let fd := _socketFd (self s) in
  let d := self s in
  let c := Select (to_int32 (fd + 1)) [fd]
                  (mk_timeval (Z.quot timeout 1000) (to_int64 (timeout * 1000))) in
  let r := os (calls s) c in
  waitForMessages os timeout s
  = (inr (to_int32 (ret r) >? 0),
     mk_state (mkCanDriver (_defaultSenderId d) (_canFilterMask d)
                           (_canProtocol d) (_socketFd d) (to_int32 (ret r))
                           (_canInterface d))
              (calls s ++ [c])
              (guards s ++ [Acquire _lock; Release _lock])
              (errno_out r)).
Proof.
  intros Hopen. not_negative Hopen. cbv zeta.
  unfold waitForMessages. unfold_monad. rewrite Efd. unfold_monad.
  cbn [_queueSize]. rewrite <- app_assoc. reflexivity.
Qed.

(** C7.  On an open channel [waitForMessages] makes one [select] on the
    handle, with the timeout split into seconds and microseconds, stores
    the [int] that [select] returned into [_queueSize], and returns true
    exactly when the stored count is positive.  With a timeout of zero the
    [timeval] passed is zero, a poll, and the call returns false when
    [select] reports nothing ready. *)
Theorem waitForMessages_ready (os : OS) (timeout : Z) (s : state) :
  is_open s ->
  let fd := _socketFd (self s) in
  let c := Select (to_int32 (fd + 1)) [fd]
                  (mk_timeval (Z.quot timeout 1000) (to_int64 (timeout * 1000))) in
  let count := to_int32 (ret (os (calls s) c)) in
  let s' := after (waitForMessages os timeout) s in
  calls s' = calls s ++ [c]
  /\ _queueSize (self s') = count
  /\ (exists ready : bool,
        returns (waitForMessages os timeout) s ready
        /\ (ready = true <-> 0 < _queueSize (self s')))
  /\ (timeout = 0 ->
      c = Select (to_int32 (fd + 1)) [fd] (mk_timeval 0 0)
      /\ (count = 0 -> returns (waitForMessages os timeout) s false)).
Proof.
  intros Hopen. cbv zeta. unfold returns, result, after.
  rewrite (waitForMessages_open os timeout s Hopen). cbv zeta.
  cbn [fst snd calls self _queueSize]. repeat split.
  - eexists. split; [reflexivity|]. rewrite Z.gtb_ltb. apply Z.ltb_lt.
  - now subst timeout.
  - subst timeout. intros ->. reflexivity.
Qed.

Lemma waitForMessages_ready_witness :
  is_open (a_state 3 0)
  /\ returns (waitForMessages (os_ok 0) 0) (a_state 3 7) false
  /\ returns (waitForMessages (os_ok 2) 3000) (a_state 3 7) true
  /\ _queueSize (self (after (waitForMessages (os_ok 2) 3000) (a_state 3 7))) = 2
  /\ calls (after (waitForMessages (os_ok 2) 3000) (a_state 3 7))
     = [Select 4 [3] (mk_timeval 3 3000000)].
Proof.
  assert (Ho : forall q, is_open (a_state 3 q))
    by (intros q; unfold is_open; simpl; lia).
  split; [apply Ho|].
  pose proof (waitForMessages_ready (os_ok 0) 0 (a_state 3 7) (Ho 7)) as H0.
  pose proof (waitForMessages_ready (os_ok 2) 3000 (a_state 3 7) (Ho 7)) as H2.
  cbv zeta in H0, H2.
  destruct H0 as (_ & _ & _ & Hpoll).
  destruct (Hpoll eq_refl) as [_ Hfalse].
  destruct H2 as (Hcalls & Hq & (ready & Hret & Hiff) & _).
  split; [apply Hfalse; reflexivity|].
  split; [|split; [exact Hq|exact Hcalls]].
  replace true with ready; [exact Hret|].
  apply Hiff. rewrite Hq. vm_compute. reflexivity.
Defined.

(** C10.  When [select] itself fails, its negative result is stored into
    [_queueSize] as it is and [waitForMessages] returns false without
    throwing: the same return value as after a [select] that timed out
    with nothing ready. *)
Theorem waitForMessages_select_error (os : OS) (timeout : Z) (s : state) :
  is_open s ->
  let fd := _socketFd (self s) in
  let c := Select (to_int32 (fd + 1)) [fd]
                  (mk_timeval (Z.quot timeout 1000) (to_int64 (timeout * 1000))) in
  let count := to_int32 (ret (os (calls s) c)) in
  count < 0 ->
  returns (waitForMessages os timeout) s false
  /\ _queueSize (self (after (waitForMessages os timeout) s)) = count
  /\ forall os0 : OS,
      to_int32 (ret (os0 (calls s) c)) = 0 ->
      result (waitForMessages os0 timeout) s
      = result (waitForMessages os timeout) s.
Proof.
  intros Hopen. cbv zeta. intros Hneg. unfold returns, result, after.
  rewrite (waitForMessages_open os timeout s Hopen). cbv zeta.
  cbn [fst snd self _queueSize].
  assert (E : (to_int32
                 (ret (os (calls s)
                          (Select (to_int32 (_socketFd (self s) + 1))
                                  [_socketFd (self s)]
                                  (mk_timeval (Z.quot timeout 1000)
                                              (to_int64 (timeout * 1000))))))
               >? 0) = false)
    by (rewrite Z.gtb_ltb; apply Z.ltb_ge; lia).
  rewrite E. repeat split.
  intros os0 Hzero.
  rewrite (waitForMessages_open os0 timeout s Hopen). cbv zeta.
  cbn [fst]. rewrite Hzero. reflexivity.
Qed.

Lemma waitForMessages_select_error_witness :
  is_open (a_state 3 5)
  /\ returns (waitForMessages (os_failing (fun _ c => is_Select c) 9 1) 100)
             (a_state 3 5) false
  /\ _queueSize (self (after (waitForMessages
                                (os_failing (fun _ c => is_Select c) 9 1) 100)
                             (a_state 3 5))) = -1.
Proof.
  assert (Ho : is_open (a_state 3 5)) by (unfold is_open; simpl; lia).
  split; [exact Ho|].
  pose proof (waitForMessages_select_error
                (os_failing (fun _ c => is_Select c) 9 1) 100 (a_state 3 5) Ho)
    as H.
  cbv zeta in H.
  destruct (H ltac:(vm_compute; reflexivity)) as (Hret & Hq & _).
  split; [exact Hret|]. rewrite Hq. vm_compute. reflexivity.
Defined.

(** ** Filter configuration *)

Lemma setCanFilterMask_open (os : OS) (mask id : Z) (s : state) :
  is_open s ->
  let fd := _socketFd (self s) in
  let d := self s in
  let canFilter :=
    mk_can_filter (if negb (id =? 0) then to_uint32 id
                   else CanId_to_uint32 (_defaultSenderId d))
                  (to_uint32 mask) in
  let c := Setsockopt fd SOL_CAN_RAW CAN_RAW_FILTER canFilter sizeof_can_filter in
  let r := os (calls s) c in
  setCanFilterMask os mask id s
  = (if to_int32 (ret r) =? -1 then inl (filter_failed mask fd (errno_out r))
     else inr tt,
     mk_state (if to_int32 (ret r) =? -1 then d
               else mkCanDriver (_defaultSenderId d) mask (_canProtocol d)
                                (_socketFd d) (_queueSize d) (_canInterface d))
              (calls s ++ [c])
              (guards s ++ [Acquire _lock; Release _lock])
              (errno_out r)).
Proof.
  intros Hopen. not_negative Hopen. cbv zeta.
  unfold setCanFilterMask. unfold_monad. rewrite Efd. unfold_monad.
  destruct (to_int32 _ =? -1); unfold_monad; rewrite <- app_assoc; reflexivity.
Qed.

(** C8.  On an open channel [setCanFilterMask(mask, id)] makes one
    [setsockopt(SOL_CAN_RAW, CAN_RAW_FILTER)] with the pair whose identifier
    is [_defaultSenderId] when [id] is zero and [id] itself otherwise (as
    [canid_t]: the same 32 bits, the same number when [id] is not
    negative) and whose mask is [mask]; when the call does not return -1
    the stored [_canFilterMask] becomes [mask], and when it returns -1 a
    [CanInitException] is thrown and the stored mask stays. *)
Theorem setCanFilterMask_installs (os : OS) (mask id : Z) (s : state) :
  is_open s ->
  let run := setCanFilterMask os mask id in
  exists canFilter : can_filter,
    let c := Setsockopt (_socketFd (self s)) 101 1 canFilter 8 in
    calls (after run s) = calls s ++ [c]
    /\ (id = 0 ->
        filter_can_id canFilter = CanId_to_uint32 (_defaultSenderId (self s)))
    /\ (id <> 0 ->
        filter_can_id canFilter = to_uint32 id
        /\ (0 <= id < 2 ^ 32 -> filter_can_id canFilter = id))
    /\ filter_can_mask canFilter = to_uint32 mask
    /\ (to_int32 (ret (os (calls s) c)) <> -1 ->
        returns run s tt /\ _canFilterMask (self (after run s)) = mask)
    /\ (to_int32 (ret (os (calls s) c)) = -1 ->
        raises run s is_CanInitException
        /\ _canFilterMask (self (after run s)) = _canFilterMask (self s)).
Proof.
  intros Hopen run. unfold run, returns, raises, result, after.
  rewrite (setCanFilterMask_open os mask id s Hopen). cbv zeta.
  eexists. cbn [fst snd calls self]. split; [reflexivity|].
  cbn [filter_can_id filter_can_mask]. split; [|split; [|split; [|split]]].
  - intros ->. reflexivity.
  - intros Hid. apply Z.eqb_neq in Hid. rewrite Hid. cbn [negb].
    split; [reflexivity|]. intros Hr. now apply to_uint32_small.
  - reflexivity.
  - intros Hok. apply Z.eqb_neq in Hok.
    change SOL_CAN_RAW with 101 in *. change CAN_RAW_FILTER with 1 in *.
    change sizeof_can_filter with 8 in *. rewrite Hok. split; reflexivity.
  - intros Hfail. apply Z.eqb_eq in Hfail.
    change SOL_CAN_RAW with 101 in *. change CAN_RAW_FILTER with 1 in *.
    change sizeof_can_filter with 8 in *. rewrite Hfail. split; reflexivity.
Qed.

Lemma setCanFilterMask_installs_witness :
  is_open (a_state 3 0)
  /\ calls (after (setCanFilterMask (os_ok 0) 0x700 0) (a_state 3 0))
     = [Setsockopt 3 101 1 (mk_can_filter 0x123 0x700) 8]
  /\ calls (after (setCanFilterMask (os_ok 0) 0x700 0x321) (a_state 3 0))
     = [Setsockopt 3 101 1 (mk_can_filter 0x321 0x700) 8]
  /\ exists canFilter : can_filter,
      calls (after (setCanFilterMask (os_ok 0) 0x700 0x321) (a_state 3 0))
      = calls (a_state 3 0) ++ [Setsockopt 3 101 1 canFilter 8]
      /\ filter_can_id canFilter = 0x321
      /\ _canFilterMask (self (after (setCanFilterMask (os_ok 0) 0x700 0x321)
                                     (a_state 3 0))) = 0x700.
Proof.
  assert (Ho : is_open (a_state 3 0)) by (unfold is_open; simpl; lia).
  split; [exact Ho|]. split; [reflexivity|]. split; [reflexivity|].
  destruct (setCanFilterMask_installs (os_ok 0) 0x700 0x321 (a_state 3 0) Ho)
    as (canFilter & Hcalls & _ & Hid & _ & Hok & _).
  exists canFilter. split; [exact Hcalls|]. split.
  - apply Hid; lia.
  - apply Hok.
    assert (Hf : canFilter = mk_can_filter 0x321 0x700).
    { vm_compute in Hcalls. now injection Hcalls as <-. }
    subst canFilter. vm_compute. discriminate.
Defined.

(** ** Initialisation *)

Lemma to_uint32_to_int32 z : to_uint32 (to_int32 z) = to_uint32 z.
Proof.
  unfold to_uint32, to_int32.
  rewrite Zminus_mod_idemp_l. f_equal. lia.
Qed.

(** The identifier of the filter installed by
    [setCanFilterMask(_canFilterMask, _defaultSenderId)] is the default
    sender id, through either branch of its test. *)
Lemma default_filter_id (c : CanId) :
  (if negb (CanId_to_int32 c =? 0) then to_uint32 (CanId_to_int32 c)
   else CanId_to_uint32 c) = CanId_to_uint32 c.
Proof.
  unfold CanId_to_int32, CanId_to_uint32.
  destruct (to_int32 (identifier c) =? 0); cbn [negb];
    [reflexivity | apply to_uint32_to_int32].
Qed.

Ltac flatten_history :=
  repeat rewrite <- app_assoc; cbn [app].

(** C9, as stated, fails for the non-blocking step: when [fcntl(F_SETFL)]
    returns -1, [initialiseSocketCan] goes on to install the filter and to
    bind, and returns normally. *)
Lemma initialise_ignores_fcntl_failure :
  ret (os_setfl_fails [Socket 29 3 1; Ioctl 3 0x8933 "can0"; Fcntl 3 3 None]
                      (Fcntl 3 4 (Some 2050))) = -1
  /\ returns (initialiseSocketCan os_setfl_fails) (a_state (-1) 0) tt
  /\ ~ raises (initialiseSocketCan os_setfl_fails) (a_state (-1) 0)
              is_CanInitException
  /\ calls (after (initialiseSocketCan os_setfl_fails) (a_state (-1) 0))
     = [Socket 29 3 1; Ioctl 3 0x8933 "can0"; Fcntl 3 3 None;
        Fcntl 3 4 (Some 2050);
        Setsockopt 3 101 1 (mk_can_filter 0x123 0x7FF) 8;
        Bind 3 (mk_sockaddr_can 29 2) 24].
Proof.
  split; [reflexivity|]. split; [reflexivity|]. split; [|reflexivity].
  unfold raises. cbn. exact (fun H => H).
Qed.

(** C9, amended.  A run of [initialiseSocketCan] that returns has made, in
    this order and nothing else: [socket], [ioctl(SIOCGIFINDEX)],
    [fcntl(F_GETFL)], [fcntl(F_SETFL)] with [O_NONBLOCK] or-ed in,
    [setsockopt(CAN_RAW_FILTER)] with the stored mask and the default
    sender id, and [bind] to the resolved index; so the filter is installed
    before the bind.  A -1 from [socket], [ioctl], [setsockopt] or [bind]
    ends the run with a [CanInitException] and no later call is made.  When
    none of the four returns -1 the run returns. *)
Theorem initialiseSocketCan_order (os : OS) (s : state) :
  let d := self s in
  let h := calls s in
  let c1 := Socket PF_CAN SOCK_RAW (_canProtocol d) in
  let fd := to_int32 (ret (os h c1)) in
  let c2 := Ioctl fd SIOCGIFINDEX (_canInterface d) in
  let r2 := os (h ++ [c1]) c2 in
  let c3 := Fcntl fd F_GETFL None in
  let r3 := os (h ++ [c1; c2]) c3 in
  let c4 := Fcntl fd F_SETFL (Some (Z.lor (to_int32 (ret r3)) O_NONBLOCK)) in
  let c5 := Setsockopt fd SOL_CAN_RAW CAN_RAW_FILTER
                       (mk_can_filter (CanId_to_uint32 (_defaultSenderId d))
                                      (to_uint32 (_canFilterMask d)))
                       sizeof_can_filter in
  let r5 := os (h ++ [c1; c2; c3; c4]) c5 in
  let c6 := Bind fd (mk_sockaddr_can AF_CAN (to_int32 (ifindex_out r2)))
                 sizeof_sockaddr_can in
  let r6 := os (h ++ [c1; c2; c3; c4; c5]) c6 in
  let run := initialiseSocketCan os in
  (returns run s tt -> calls (after run s) = h ++ [c1; c2; c3; c4; c5; c6])
  /\ (fd = -1 ->
      raises run s is_CanInitException /\ calls (after run s) = h ++ [c1])
  /\ (0 <= fd -> to_int32 (ret r2) = -1 ->
      raises run s is_CanInitException /\ calls (after run s) = h ++ [c1; c2])
  /\ (0 <= fd -> to_int32 (ret r2) <> -1 -> to_int32 (ret r5) = -1 ->
      raises run s is_CanInitException
      /\ calls (after run s) = h ++ [c1; c2; c3; c4; c5])
  /\ (0 <= fd -> to_int32 (ret r2) <> -1 -> to_int32 (ret r5) <> -1 ->
      to_int32 (ret r6) = -1 ->
      raises run s is_CanInitException
      /\ calls (after run s) = h ++ [c1; c2; c3; c4; c5; c6])
  /\ (0 <= fd -> to_int32 (ret r2) <> -1 -> to_int32 (ret r5) <> -1 ->
      to_int32 (ret r6) <> -1 -> returns run s tt).
Proof.
  cbv zeta.
  unfold returns, raises, result, after, initialiseSocketCan. unfold_monad.
  cbn [_socketFd _canFilterMask _defaultSenderId _canInterface _canProtocol].
  destruct (to_int32 (ret (os (calls s) _)) =? -1) eqn:E1; unfold_monad.
  { apply Z.eqb_eq in E1. rewrite E1.
    repeat split; intros; try discriminate; try lia. }
  apply Z.eqb_neq in E1.
  destruct (to_int32 (ret (os (calls s ++ _) _)) =? -1) eqn:E2; unfold_monad.
  { apply Z.eqb_eq in E2. flatten_history.
    repeat split; intros; try discriminate; try lia; try contradiction. }
  apply Z.eqb_neq in E2.
  destruct (Z_lt_le_dec
              (to_int32 (ret (os (calls s)
                                 (Socket PF_CAN SOCK_RAW
                                         (_canProtocol (self s)))))) 0)
    as [Hneg | Hopen].
  { rewrite setCanFilterMask_closed by (cbn; exact Hneg). unfold_monad.
    repeat split; intros; try discriminate; try lia. }
  rewrite setCanFilterMask_open by (unfold is_open; cbn; exact Hopen).
  cbv zeta.
  cbn [self calls guards errno _socketFd _canFilterMask _defaultSenderId
       _canInterface _canProtocol _queueSize].
  rewrite default_filter_id. flatten_history.
  match goal with
  | |- context [if ?c then inl _ else inr _] => destruct c eqn:E5
  end.
  { apply Z.eqb_eq in E5.
    repeat split; intros; try discriminate; try lia; try contradiction. }
  apply Z.eqb_neq in E5. unfold_monad. flatten_history.
  match goal with
  | |- context [if ?c then _ else _] => destruct c eqn:E6
  end; unfold_monad; flatten_history.
  { apply Z.eqb_eq in E6.
    repeat split; intros; try discriminate; try lia; try contradiction. }
  apply Z.eqb_neq in E6.
  repeat split; intros; try discriminate; try lia; try contradiction.
Qed.

Lemma initialiseSocketCan_order_witness :
  returns (initialiseSocketCan (os_ok 0)) (a_state (-1) 0) tt
  /\ calls (after (initialiseSocketCan (os_ok 0)) (a_state (-1) 0))
     = [Socket 29 3 1; Ioctl 3 0x8933 "can0"; Fcntl 3 3 None;
        Fcntl 3 4 (Some 2050);
        Setsockopt 3 101 1 (mk_can_filter 0x123 0x7FF) 8;
        Bind 3 (mk_sockaddr_can 29 2) 24].
Proof.
  pose proof (initialiseSocketCan_order (os_ok 0) (a_state (-1) 0)) as H.
  cbv zeta in H. destruct H as (Hcalls & _ & _ & _ & _ & Hret).
  assert (Hr : returns (initialiseSocketCan (os_ok 0)) (a_state (-1) 0) tt).
  { apply Hret; vm_compute; congruence. }
  split; [exact Hr|]. rewrite (Hcalls Hr). reflexivity.
Defined.

(** The constructor hands its arguments to [initialiseSocketCan] in the
    fields of the object, with the handle at -1. *)
Lemma CanDriver_new4_run (os : OS) (canInterface : string)
      (canProtocol filterMask : Z) (defaultSenderId : CanId) (queueSize0 : Z)
      (s : state) :
  CanDriver_new4 os canInterface canProtocol filterMask defaultSenderId
                 queueSize0 s
  = initialiseSocketCan os
      (mk_state (mkCanDriver defaultSenderId filterMask canProtocol (-1)
                             queueSize0 canInterface)
                (calls s) (guards s) (errno s)).
Proof. reflexivity. Qed.

(** ** Batch receive *)

Lemma readMessageLock_false_open (os : OS) (s : state) :
  is_open s ->
  let fd := _socketFd (self s) in
  let r := os (calls s) (Read fd sizeof_can_frame) in
  readMessageLock os false s
  = (if 0 >? readBytes_of r then inl (read_failed (errno_out r) fd)
     else inr (wrap_reply r),
     mk_state (self s) (calls s ++ [Read fd sizeof_can_frame]) (guards s)
              (errno_out r)).
Proof.
  intros Hopen. cbv zeta.
  assert (E : (0 >? _socketFd (self s)) = false)
    by (rewrite Z.gtb_ltb; apply Z.ltb_ge; exact Hopen).
  unfold readMessageLock, readBytes_of. unfold_monad. rewrite E. unfold_monad.
  destruct (0 >? to_int32 _); reflexivity.
Qed.

(** The loop, when each of its reads reports a non-negative count: one
    message per read, appended in the order of the reads. *)
Lemma readQueuedMessages_loop_ok (os : OS) (i : nat) :
  forall (messages : list CanMessage) (s : state),
    is_open s ->
    let fd := _socketFd (self s) in
    let rs := read_replies os (calls s) fd i in
    Forall (fun r => 0 <= readBytes_of r) rs ->
    exists s',
      readQueuedMessages_loop os i messages s
      = (inr (messages ++ map wrap_reply rs), s')
      /\ calls s' = calls s ++ repeat (Read fd sizeof_can_frame) i
      /\ guards s' = guards s.
Proof.
  induction i as [|i IH]; intros messages s Hopen fd rs Hall.
  - exists s. cbn. rewrite !app_nil_r. repeat split.
  - subst rs. cbn [read_replies] in Hall. inversion Hall as [|r rs' Hr Hrs]; subst.
    cbn [readQueuedMessages_loop]. unfold bind at 1.
    rewrite (readMessageLock_false_open os s Hopen). cbv zeta.
    assert (E : (0 >? readBytes_of
                        (os (calls s) (Read (_socketFd (self s)) sizeof_can_frame)))
                = false)
      by (rewrite Z.gtb_ltb; apply Z.ltb_ge; exact Hr).
    rewrite E.
    set (s1 := mk_state (self s) (calls s ++ [Read (_socketFd (self s))
                                                   sizeof_can_frame])
                        (guards s) _).
    destruct (IH (messages ++ [wrap_reply
                                 (os (calls s)
                                     (Read (_socketFd (self s)) sizeof_can_frame))])
                 s1 Hopen Hrs) as (s' & Hrun & Hcalls & Hguards).
    exists s'. split; [|split].
    + cbv beta iota. fold s1. rewrite Hrun. cbn [read_replies map]. subst s1. cbn [self calls].
      rewrite <- app_assoc. reflexivity.
    + rewrite Hcalls. subst s1. cbn [self calls repeat]. fold fd.
      rewrite <- app_assoc. reflexivity.
    + rewrite Hguards. reflexivity.
Qed.

(** The loop, when one of its reads reports a negative count: the
    [CanException] of a failed read. *)
Lemma readQueuedMessages_loop_fails (os : OS) (i : nat) :
  forall (messages : list CanMessage) (s : state),
    is_open s ->
    Exists (fun r => readBytes_of r < 0)
           (read_replies os (calls s) (_socketFd (self s)) i) ->
    exists e s',
      readQueuedMessages_loop os i messages s = (inl e, s')
      /\ is_CanException e = true.
Proof.
  induction i as [|i IH]; intros messages s Hopen Hex.
  - inversion Hex.
  - cbn [read_replies] in Hex. cbn [readQueuedMessages_loop]. unfold bind at 1.
    rewrite (readMessageLock_false_open os s Hopen). cbv zeta.
    destruct (0 >? readBytes_of _) eqn:E.
    + eexists _, _. split; reflexivity.
    + rewrite Z.gtb_ltb in E. apply Z.ltb_ge in E.
      inversion Hex as [r rs Hr | r rs Hrs]; subst; [lia|].
      apply IH; [exact Hopen | exact Hrs].
Qed.

(** The state [waitForMessages] leaves is the one [readQueuedMessages]
    starts from: the channel is still open and [_queueSize] is the count
    [select] returned. *)
Lemma waitForMessages_sets_queueSize (os : OS) (timeout : Z) (s : state) :
  is_open s ->
  let s1 := after (waitForMessages os timeout) s in
  is_open s1
  /\ _socketFd (self s1) = _socketFd (self s)
  /\ _queueSize (self s1)
     = to_int32
         (ret (os (calls s)
                  (Select (to_int32 (_socketFd (self s) + 1))
                          [_socketFd (self s)]
                          (mk_timeval (Z.quot timeout 1000)
                                      (to_int64 (timeout * 1000)))))).
Proof.
  intros Hopen. cbv zeta. unfold is_open, after.
  rewrite (waitForMessages_open os timeout s Hopen). cbv zeta.
  cbn [snd self _socketFd _queueSize]. repeat split. exact Hopen.
Qed.

(** C5, as stated, fails when a read fails: [select] reports one
    descriptor ready, [waitForMessages] stores 1 and returns true, and the
    one [read] of [readQueuedMessages] returns -1; the run throws the
    [CanException] of the failed read and returns no sequence. *)
Lemma drain_throws_when_read_fails :
  is_open (a_state 3 0)
  /\ returns (waitForMessages os_read_fails 0) (a_state 3 0) true
  /\ _queueSize (self (after (waitForMessages os_read_fails 0) (a_state 3 0))) = 1
  /\ throws (readQueuedMessages os_read_fails)
            (after (waitForMessages os_read_fails 0) (a_state 3 0))
            (read_failed 11 3)
  /\ forall frames : list CanMessage,
      ~ returns (readQueuedMessages os_read_fails)
                (after (waitForMessages os_read_fails 0) (a_state 3 0))
                frames.
Proof.
  split; [unfold is_open; simpl; lia|].
  split; [reflexivity|]. split; [reflexivity|]. split; [reflexivity|].
  intros frames H. unfold returns in H.
  assert (E : result (readQueuedMessages os_read_fails)
                     (after (waitForMessages os_read_fails 0) (a_state 3 0))
              = inl (read_failed 11 3)) by reflexivity.
  rewrite E in H. discriminate.
Qed.

(** C5, amended.  On an open channel with [_queueSize] = N,
    [readQueuedMessages] makes max(N, 0) reads of one frame each, provided
    each of them reports a non-negative byte count, and returns the
    max(N, 0) messages wrapped from the frames read, in the order of the
    reads; when one of the reads reports a negative count it throws the
    [CanException] of a failed read and returns nothing. *)
Theorem readQueuedMessages_drains (os : OS) (s : state) :
  is_open s ->
  let fd := _socketFd (self s) in
  let N := _queueSize (self s) in
  let rs := read_replies os (calls s) fd (Z.to_nat N) in
  let run := readQueuedMessages os in
  (Forall (fun r => 0 <= readBytes_of r) rs ->
   returns run s (map wrap_reply rs)
   /\ Z.of_nat (List.length (map wrap_reply rs)) = Z.max N 0
   /\ calls (after run s)
      = calls s ++ repeat (Read fd sizeof_can_frame) (Z.to_nat N))
  /\ (Exists (fun r => readBytes_of r < 0) rs ->
      raises run s is_CanException).
Proof.
  intros Hopen fd N rs run. not_negative Hopen.
  assert (Hlen : forall h n, List.length (read_replies os h fd n) = n).
  { intros h n. revert h. induction n as [|n IH]; intros h; cbn;
      [reflexivity | now rewrite IH]. }
  assert (Hlocked : is_open (log_guard (Acquire _lock) s)) by exact Hopen.
  split.
  - intros Hall.
    destruct (readQueuedMessages_loop_ok os (Z.to_nat N) []
                (log_guard (Acquire _lock) s) Hlocked Hall)
      as (s' & Hrun & Hcalls & _).
    unfold run, returns, result, after, readQueuedMessages. unfold_monad.
    rewrite Efd. unfold_monad. fold N.
    change (mk_state (self s) (calls s) (guards s ++ [Acquire _lock]) (errno s))
      with (log_guard (Acquire _lock) s).
    rewrite Hrun. cbn [fst snd calls app]. split; [reflexivity|]. split.
    + rewrite length_map. unfold rs. rewrite Hlen. lia.
    + exact Hcalls.
  - intros Hex.
    destruct (readQueuedMessages_loop_fails os (Z.to_nat N) []
                (log_guard (Acquire _lock) s) Hlocked Hex)
      as (e & s' & Hrun & He).
    unfold run, raises, result, readQueuedMessages. unfold_monad.
    rewrite Efd. unfold_monad. fold N.
    change (mk_state (self s) (calls s) (guards s ++ [Acquire _lock]) (errno s))
      with (log_guard (Acquire _lock) s).
    rewrite Hrun. exact He.
Qed.

Lemma readQueuedMessages_drains_witness :
  is_open (after (waitForMessages (os_ok 3) 0) (a_state 3 0))
  /\ _queueSize (self (after (waitForMessages (os_ok 3) 0) (a_state 3 0))) = 3
  /\ returns (readQueuedMessages (os_ok 3))
             (after (waitForMessages (os_ok 3) 0) (a_state 3 0))
             [CanMessage_of_frame (queued_frame 0);
              CanMessage_of_frame (queued_frame 1);
              CanMessage_of_frame (queued_frame 2)]
  /\ calls (after (readQueuedMessages (os_ok 3))
                  (after (waitForMessages (os_ok 3) 0) (a_state 3 0)))
     = [Select 4 [3] (mk_timeval 0 0); Read 3 16; Read 3 16; Read 3 16].
Proof.
  assert (Ho : is_open (after (waitForMessages (os_ok 3) 0) (a_state 3 0)))
    by (unfold is_open; simpl; lia).
  split; [exact Ho|]. split; [reflexivity|].
  pose proof (readQueuedMessages_drains
                (os_ok 3) (after (waitForMessages (os_ok 3) 0) (a_state 3 0)) Ho)
    as H.
  cbv zeta in H. destruct H as [Hok _].
  assert (Hall : Forall (fun r => 0 <= readBytes_of r)
                   (read_replies (os_ok 3)
                      (calls (after (waitForMessages (os_ok 3) 0) (a_state 3 0)))
                      (_socketFd
                         (self (after (waitForMessages (os_ok 3) 0)
                                      (a_state 3 0))))
                      (Z.to_nat
                         (_queueSize
                            (self (after (waitForMessages (os_ok 3) 0)
                                         (a_state 3 0))))))).
  { repeat constructor; vm_compute; discriminate. }
  destruct (Hok Hall) as (Hret & _ & Hcalls).
  split; [exact Hret | exact Hcalls].
Defined.

(** ** Batch send *)

Lemma to_int32_add_l (a b : Z) : to_int32 (to_int32 a + b) = to_int32 (a + b).
Proof.
  unfold to_int32. f_equal.
  replace ((a + 2 ^ 31) mod 2 ^ 32 - 2 ^ 31 + b + 2 ^ 31)
    with ((a + 2 ^ 31) mod 2 ^ 32 + b) by lia.
  rewrite Zplus_mod_idemp_l. f_equal. lia.
Qed.

(** The running total of the loop is the sum of the counts, as an
    [int32_t]. *)
Lemma running_total (ns : list Z) :
  forall t : Z,
    fold_left (fun total n => to_int32 (total + n)) ns (to_int32 t)
    = to_int32 (t + list_sum ns).
Proof.
  induction ns as [|n ns IH]; intros t; cbn [fold_left list_sum fold_right].
  - now rewrite Z.add_0_r.
  - rewrite IH, <- Z.add_assoc, to_int32_add_l. reflexivity.
Qed.

(** What a single send leaves behind, by its outcome. *)
Lemma sendMessage_returned (os : OS) (message : CanMessage)
      (forceExtended : bool) (s s' : state) (n : Z) :
  sendMessage os message forceExtended s = (inr n, s') ->
  is_open s
  /\ self s' = self s
  /\ calls s' = calls s ++ [Write (_socketFd (self s))
                                  (wire_frame message forceExtended)
                                  sizeof_can_frame].
Proof.
  intros Hrun.
  destruct (Z_lt_le_dec (_socketFd (self s)) 0) as [Hneg | Hopen].
  { rewrite sendMessage_closed in Hrun by exact Hneg. discriminate. }
  destruct (Z_lt_le_dec CAN_MAX_DATA_LENGTH
                        (Z.of_nat (List.length (getFrameData message))))
    as [Hlong | Hshort].
  { rewrite sendMessage_open_long in Hrun by assumption. discriminate. }
  rewrite (sendMessage_open_small os message forceExtended s Hopen Hshort)
    in Hrun.
  cbv zeta in Hrun. injection Hrun as _ <-. repeat split. exact Hopen.
Qed.

Lemma sendMessage_thrown (os : OS) (message : CanMessage)
      (forceExtended : bool) (s s' : state) (e : exn) :
  sendMessage os message forceExtended s = (inl e, s') ->
  self s' = self s
  /\ (calls s' = calls s
      \/ calls s' = calls s ++ [Write (_socketFd (self s))
                                      (wire_frame message forceExtended)
                                      sizeof_can_frame]).
Proof.
  intros Hrun.
  destruct (Z_lt_le_dec (_socketFd (self s)) 0) as [Hneg | Hopen].
  { rewrite sendMessage_closed in Hrun by exact Hneg.
    injection Hrun as _ <-. split; [reflexivity | now left]. }
  destruct (Z_lt_le_dec CAN_MAX_DATA_LENGTH
                        (Z.of_nat (List.length (getFrameData message))))
    as [Hlong | Hshort].
  { rewrite sendMessage_open_long in Hrun by assumption.
    injection Hrun as _ <-. split; [reflexivity | now left]. }
  rewrite (sendMessage_open_small os message forceExtended s Hopen Hshort)
    in Hrun.
  cbv zeta in Hrun. injection Hrun as _ <-. split; [reflexivity | now right].
Qed.

(** Sends that all return leave one [write] per message, in the order of
    the list. *)
Lemma sent_all_calls (os : OS) (forceExtended : bool) (s s' : state)
      (messages : list CanMessage) (ns : list Z) :
  sent_all os forceExtended s messages ns s' ->
  self s' = self s
  /\ calls s' = calls s ++ writes_of (_socketFd (self s)) forceExtended messages.
Proof.
  induction 1 as [s | s message n s1 rest ns s2 Hsend Hrest [IHself IHcalls]].
  - cbn. now rewrite app_nil_r.
  - destruct (sendMessage_returned _ _ _ _ _ _ Hsend) as (_ & Hself & Hcalls).
    split; [congruence|].
    rewrite IHcalls, Hcalls, Hself, <- app_assoc. reflexivity.
Qed.

Lemma sendMessageQueue_loop_all (os : OS) (forceExtended : bool)
      (s s' : state) (messages : list CanMessage) (ns : list Z) :
  sent_all os forceExtended s messages ns s' ->
  forall total : Z,
    sendMessageQueue_loop os messages forceExtended total s
    = (inr (fold_left (fun t n => to_int32 (t + n)) ns total), s').
Proof.
  induction 1 as [s | s message n s1 rest ns s2 Hsend Hrest IH]; intros total.
  - reflexivity.
  - cbn [sendMessageQueue_loop fold_left]. unfold bind at 1.
    rewrite Hsend. apply IH.
Qed.

Lemma sendMessageQueue_loop_stops (os : OS) (forceExtended : bool)
      (s s1 s2 : state) (pre post : list CanMessage) (message : CanMessage)
      (ns : list Z) (e : exn) :
  sent_all os forceExtended s pre ns s1 ->
  sendMessage os message forceExtended s1 = (inl e, s2) ->
  forall total : Z,
    sendMessageQueue_loop os (pre ++ message :: post) forceExtended total s
    = (inl e, s2).
Proof.
  induction 1 as [s | s m n s1' rest ns s1 Hsend Hrest IH];
    intros Hfail total.
  - cbn [app sendMessageQueue_loop]. unfold bind at 1. now rewrite Hfail.
  - cbn [app sendMessageQueue_loop]. unfold bind at 1. rewrite Hsend.
    apply IH. exact Hfail.
Qed.

(** Every queue either is sent whole or has a first message whose send
    throws. *)
Lemma sends_decompose (os : OS) (forceExtended : bool)
      (messages : list CanMessage) :
  forall s : state,
    (exists ns s', sent_all os forceExtended s messages ns s')
    \/ (exists pre message post ns s1 e s2,
          messages = pre ++ message :: post
          /\ sent_all os forceExtended s pre ns s1
          /\ sendMessage os message forceExtended s1 = (inl e, s2)).
Proof.
  induction messages as [|m rest IH]; intros s.
  - left. exists [], s. constructor.
  - destruct (sendMessage os m forceExtended s) as [[e | n] s1] eqn:Hsend.
    + right. exists [], m, rest, [], s, e, s1.
      repeat split; [constructor | exact Hsend].
    + destruct (IH s1) as [(ns & s' & Hall)
                          | (pre & m' & post & ns & s1' & e & s2 & -> & Hall & Hf)].
      * left. exists (n :: ns), s'. econstructor; eassumption.
      * right. exists (m :: pre), m', post, (n :: ns), s1', e, s2.
        repeat split; [econstructor; eassumption | exact Hf].
Qed.

(** C6.  On an open channel [sendMessageQueue] sends the messages in the
    order of the queue.  When every single-frame send returns, it returns
    the sum of their byte counts (in [int32_t] arithmetic, so the sum itself
    when that fits) and has made one [write] per message, in order.  When
    the sends before some message return and the send of that message
    throws, it throws the same exception and stops in the state that send
    left: the writes of the earlier messages are made, of the failing
    message at most its own [write] was attempted, and nothing is done for
    the messages behind it.  One of the two is always the case. *)
Theorem sendMessageQueue_fifo (os : OS) (messages : list CanMessage)
        (delay : Z) (forceExtended : bool) (s : state) :
  is_open s ->
  let run := sendMessageQueue os messages delay forceExtended in
  let fd := _socketFd (self s) in
  (forall ns s',
      sent_all os forceExtended s messages ns s' ->
      returns run s (to_int32 (list_sum ns))
      /\ (in_int32 (list_sum ns) -> returns run s (list_sum ns))
      /\ calls (after run s) = calls s ++ writes_of fd forceExtended messages)
  /\ (forall pre message post ns s1 e s2,
        messages = pre ++ message :: post ->
        sent_all os forceExtended s pre ns s1 ->
        sendMessage os message forceExtended s1 = (inl e, s2) ->
        throws run s e
        /\ after run s = s2
        /\ exists attempt,
            calls (after run s)
            = calls s ++ writes_of fd forceExtended pre ++ attempt
            /\ (attempt = [] \/ attempt = writes_of fd forceExtended [message]))
  /\ ((exists ns s', sent_all os forceExtended s messages ns s')
      \/ (exists pre message post ns s1 e s2,
            messages = pre ++ message :: post
            /\ sent_all os forceExtended s pre ns s1
            /\ sendMessage os message forceExtended s1 = (inl e, s2))).
Proof.
  intros Hopen run fd. not_negative Hopen.
  assert (Hrun : run s = sendMessageQueue_loop os messages forceExtended 0 s).
  { unfold run, sendMessageQueue. unfold_monad. now rewrite Efd. }
  split; [|split].
  - intros ns s' Hall.
    pose proof (sendMessageQueue_loop_all _ _ _ _ _ _ Hall 0) as Hloop.
    change 0 with (to_int32 0) in Hloop at 2.
    rewrite running_total, Z.add_0_l in Hloop.
    unfold returns, result, after. rewrite Hrun, Hloop. cbn [fst snd].
    split; [reflexivity|]. split.
    + intros Hfits. now rewrite to_int32_id.
    + apply (sent_all_calls _ _ _ _ _ _ Hall).
  - intros pre message post ns s1 e s2 -> Hall Hfail.
    unfold throws, result, after.
    rewrite Hrun, (sendMessageQueue_loop_stops _ _ _ _ _ _ post _ _ _ Hall Hfail).
    cbn [fst snd]. split; [reflexivity|]. split; [reflexivity|].
    destruct (sent_all_calls _ _ _ _ _ _ Hall) as [Hself Hcalls].
    destruct (sendMessage_thrown _ _ _ _ _ _ Hfail) as [_ [Hnone | Hone]].
    + exists []. rewrite app_nil_r. split; [|now left].
      rewrite Hnone, Hcalls. reflexivity.
    + exists (writes_of fd forceExtended [message]). split; [|now right].
      rewrite Hone, Hcalls, Hself, <- app_assoc. reflexivity.
  - apply sends_decompose.
Qed.

Lemma sendMessageQueue_fifo_witness :
  is_open (a_state 3 0)
  /\ returns (sendMessageQueue (os_ok 0)
                               [msg 1 [1]; msg 2 [1; 2]; msg 0x800 []] 20 false)
             (a_state 3 0) 48
  /\ calls (after (sendMessageQueue (os_ok 0)
                                    [msg 1 [1]; msg 2 [1; 2]; msg 0x800 []]
                                    20 false) (a_state 3 0))
     = [Write 3 (getRawFrame (msg 1 [1])) 16;
        Write 3 (getRawFrame (msg 2 [1; 2])) 16;
        Write 3 (or_eff_flag (getRawFrame (msg 0x800 []))) 16]
  /\ throws (sendMessageQueue (os_ok 0)
                              [msg 1 [1]; msg 2 [1; 2; 3; 4; 5; 6; 7; 8; 9];
                               msg 3 [3]] 20 false)
            (a_state 3 0) (invalid_data_length 8 3)
  /\ calls (after (sendMessageQueue (os_ok 0)
                                    [msg 1 [1];
                                     msg 2 [1; 2; 3; 4; 5; 6; 7; 8; 9];
                                     msg 3 [3]] 20 false) (a_state 3 0))
     = [Write 3 (getRawFrame (msg 1 [1])) 16].
Proof.
  assert (Ho : is_open (a_state 3 0)) by (unfold is_open; simpl; lia).
  split; [exact Ho|].
  pose proof (sendMessageQueue_fifo
                (os_ok 0) [msg 1 [1]; msg 2 [1; 2]; msg 0x800 []] 20 false
                (a_state 3 0) Ho) as Hgood.
  pose proof (sendMessageQueue_fifo
                (os_ok 0)
                [msg 1 [1]; msg 2 [1; 2; 3; 4; 5; 6; 7; 8; 9]; msg 3 [3]]
                20 false (a_state 3 0) Ho) as Hbad.
  cbv zeta in Hgood, Hbad.
  destruct Hgood as (Hall & _ & _). destruct Hbad as (_ & Hstop & _).
  assert (Hsent : sent_all (os_ok 0) false (a_state 3 0)
                    [msg 1 [1]; msg 2 [1; 2]; msg 0x800 []] [16; 16; 16]
                    (snd (sendMessageQueue_loop
                            (os_ok 0) [msg 1 [1]; msg 2 [1; 2]; msg 0x800 []]
                            false 0 (a_state 3 0)))).
  { eapply sent_next; [reflexivity|].
    eapply sent_next; [reflexivity|].
    eapply sent_next; [reflexivity|]. apply sent_none. }
  destruct (Hall _ _ Hsent) as (_ & Hsum & Hcalls).
  split; [apply Hsum; unfold in_int32; cbn; lia|].
  split; [rewrite Hcalls; reflexivity|].
  assert (Hfirst : sent_all (os_ok 0) false (a_state 3 0) [msg 1 [1]] [16]
                     (snd (sendMessage (os_ok 0) (msg 1 [1]) false
                                       (a_state 3 0)))).
  { eapply sent_next; [reflexivity|]. apply sent_none. }
  destruct (Hstop [msg 1 [1]] (msg 2 [1; 2; 3; 4; 5; 6; 7; 8; 9]) [msg 3 [3]]
                  [16] _ (invalid_data_length 8 3) _ eq_refl Hfirst eq_refl)
    as (Hthrows & Hafter & _).
  split; [exact Hthrows|]. rewrite Hafter. reflexivity.
Defined.

(** * Further properties of the driver *)

(** ** Single-frame receive *)

Lemma readMessage_open (os : OS) (s : state) :
  is_open s ->
  let fd := _socketFd (self s) in
  let r := os (calls s) (Read fd sizeof_can_frame) in
  readMessage os s
  = (if 0 >? readBytes_of r then inl (read_failed (errno_out r) fd)
     else inr (wrap_reply r),
     mk_state (self s) (calls s ++ [Read fd sizeof_can_frame])
              (guards s ++ [Acquire _lock; Release _lock]) (errno_out r)).
Proof.
  intros Hopen. cbv zeta.
  assert (E : (0 >? _socketFd (self s)) = false)
    by (rewrite Z.gtb_ltb; apply Z.ltb_ge; exact Hopen).
  unfold readMessage, readMessageLock, readBytes_of. unfold_monad.
  rewrite E. unfold_monad.
  destruct (0 >? to_int32 _); unfold_monad; rewrite <- app_assoc; reflexivity.
Qed.

(** X1.  On an open channel [readMessage] makes exactly one [read] of
    [sizeof(can_frame)] bytes on the handle and leaves the object as it
    was.  When the count read is negative it throws the [CanException]
    that carries the [errno] of that [read] and the handle; otherwise it
    returns the message built from the frame read, whose raw frame is that
    frame. *)
Theorem readMessage_one_read (os : OS) (s : state) :
  is_open s ->
  let fd := _socketFd (self s) in
  let r := os (calls s) (Read fd 16) in
  let run := readMessage os in
  calls (after run s) = calls s ++ [Read fd 16]
  /\ self (after run s) = self s
  /\ (readBytes_of r < 0 ->
      throws run s (read_failed (errno_out r) fd)
      /\ getSocket (read_failed (errno_out r) fd) = Some fd)
  /\ (0 <= readBytes_of r ->
      exists message,
        returns run s message /\ getRawFrame message = frame_out r).
Proof.
  intros Hopen fd r run.
  unfold run, throws, returns, result, after.
  rewrite (readMessage_open os s Hopen). cbv zeta. cbn [fst snd calls self].
  fold fd. change sizeof_can_frame with 16. fold r.
  split; [reflexivity|]. split; [reflexivity|]. split.
  - intros Hneg.
    replace (0 >? readBytes_of r) with true
      by (symmetry; rewrite Z.gtb_ltb; apply Z.ltb_lt; exact Hneg).
    split; reflexivity.
  - intros Hok.
    replace (0 >? readBytes_of r) with false
      by (symmetry; rewrite Z.gtb_ltb; apply Z.ltb_ge; exact Hok).
    exists (wrap_reply r). split; reflexivity.
Qed.

Lemma readMessage_one_read_witness :
  is_open (a_state 3 0)
  /\ calls (after (readMessage (os_ok 1)) (a_state 3 0)) = [Read 3 16]
  /\ (exists message,
        returns (readMessage (os_ok 1)) (a_state 3 0) message
        /\ getRawFrame message = queued_frame 0)
  /\ throws (readMessage os_read_fails) (a_state 3 0) (read_failed 11 3).
Proof.
  assert (Ho : is_open (a_state 3 0)) by (unfold is_open; simpl; lia).
  split; [exact Ho|].
  pose proof (readMessage_one_read (os_ok 1) (a_state 3 0) Ho) as Hgood.
  pose proof (readMessage_one_read os_read_fails (a_state 3 0) Ho) as Hbad.
  cbv zeta in Hgood, Hbad.
  destruct Hgood as (Hcalls & _ & _ & Hok).
  destruct Hbad as (_ & _ & Hfail & _).
  split; [exact Hcalls|]. split.
  - apply Hok. vm_compute. discriminate.
  - apply Hfail. vm_compute. reflexivity.
Defined.

(** ** Single-frame send, the failing write *)

(** X2.  On an open channel, when the [write] of a message that passed the
    length check returns -1, [sendMessage] throws the [CanException] that
    carries the [errno] of that [write] and the handle; the frame was
    handed to the operating system and the object is unchanged.  Whatever
    the [write] returns, [sendMessage] never returns -1. *)
Theorem sendMessage_write_failure (os : OS) (message : CanMessage)
        (forceExtended : bool) (s : state) :
  is_open s ->
  Z.of_nat (List.length (getFrameData message)) <= 8 ->
  let fd := _socketFd (self s) in
  let c := Write fd (wire_frame message forceExtended) 16 in
  let r := os (calls s) c in
  let run := sendMessage os message forceExtended in
  (to_int32 (to_int64 (ret r)) = -1 ->
   throws run s (write_failed (errno_out r) fd)
   /\ getSocket (write_failed (errno_out r) fd) = Some fd
   /\ calls (after run s) = calls s ++ [c]
   /\ self (after run s) = self s)
  /\ ~ returns run s (-1).
Proof.
  intros Hopen Hlen fd c r run.
  pose proof (sendMessage_open_small os message forceExtended s Hopen Hlen)
    as Hrun.
  cbv zeta in Hrun. unfold run, throws, returns, result, after. rewrite Hrun.
  cbn [fst snd calls self]. fold fd. change sizeof_can_frame with 16.
  fold c. fold r. split.
  - intros Hfail. rewrite Hfail. cbn. repeat split.
  - destruct (to_int32 (to_int64 (ret r)) =? -1) eqn:E; [discriminate|].
    apply Z.eqb_neq in E. intros H. injection H as H. contradiction.
Qed.

Lemma sendMessage_write_failure_witness :
  is_open (a_state 3 0)
  /\ Z.of_nat (List.length (getFrameData (msg 0x10 [1; 2]))) <= 8
  /\ throws (sendMessage (os_failing (fun _ c => is_Write_call c) 105 0)
                         (msg 0x10 [1; 2]) false)
            (a_state 3 0) (write_failed 105 3)
  /\ calls (after (sendMessage (os_failing (fun _ c => is_Write_call c) 105 0)
                               (msg 0x10 [1; 2]) false) (a_state 3 0))
     = [Write 3 (getRawFrame (msg 0x10 [1; 2])) 16].
Proof.
  assert (Ho : is_open (a_state 3 0)) by (unfold is_open; simpl; lia).
  assert (Hl : Z.of_nat (List.length (getFrameData (msg 0x10 [1; 2]))) <= 8)
    by (simpl; lia).
  split; [exact Ho|]. split; [exact Hl|].
  pose proof (sendMessage_write_failure
                (os_failing (fun _ c => is_Write_call c) 105 0)
                (msg 0x10 [1; 2]) false (a_state 3 0) Ho Hl) as H.
  cbv zeta in H. destruct H as [H _].
  destruct (H ltac:(vm_compute; reflexivity)) as (Ht & _ & Hc & _).
  split; [exact Ht | exact Hc].
Defined.

(** ** What the operations leave of the state *)






Lemma paired_plus (m : mutex) (j k : nat) :
  paired m (j + k) = paired m j ++ paired m k.
Proof. unfold paired. now rewrite repeat_app, List.concat_app. Qed.

(** A single send: the object is untouched and the send guard was taken
    at most once, and released. *)
Lemma sendMessage_frame (os : OS) (message : CanMessage)
      (forceExtended : bool) (s : state) :
  let s' := after (sendMessage os message forceExtended) s in
  self s' = self s
  /\ exists k, (k <= 1)%nat /\ guards s' = guards s ++ paired _lockSend k.
Proof.
  cbv zeta. unfold after.
  destruct (Z_lt_le_dec (_socketFd (self s)) 0) as [Hneg | Hopen].
  { rewrite sendMessage_closed by exact Hneg. cbn [snd].
    split; [reflexivity|]. exists 0%nat. cbn. rewrite app_nil_r. split; [lia|reflexivity]. }
  destruct (Z_lt_le_dec CAN_MAX_DATA_LENGTH
                        (Z.of_nat (List.length (getFrameData message))))
    as [Hlong | Hshort].
  { rewrite sendMessage_open_long by assumption. cbn [snd self guards].
    split; [reflexivity|]. exists 1%nat. split; [lia|reflexivity]. }
  rewrite (sendMessage_open_small os message forceExtended s Hopen Hshort).
  cbv zeta. cbn [snd self guards].
  split; [reflexivity|]. exists 1%nat. split; [lia|reflexivity].
Qed.

Lemma sendMessageQueue_loop_frame (os : OS) (forceExtended : bool)
      (messages : list CanMessage) :
  forall (total : Z) (s : state),
    let s' := snd (sendMessageQueue_loop os messages forceExtended total s) in
    self s' = self s
    /\ exists k, (k <= List.length messages)%nat
                 /\ guards s' = guards s ++ paired _lockSend k.
Proof.
  induction messages as [|m rest IH]; intros total s; cbv zeta.
  - cbn. split; [reflexivity|]. exists 0%nat. cbn. rewrite app_nil_r.
    split; [lia|reflexivity].
  - cbn [sendMessageQueue_loop]. unfold bind.
    destruct (sendMessage_frame os m forceExtended s) as (Hself & k & Hk & Hg).
    unfold after in Hself, Hg.
    destruct (sendMessage os m forceExtended s) as [[e | n] s1];
      cbn [snd] in Hself, Hg |- *.
    + split; [exact Hself|]. exists k. cbn [List.length]. split; [lia|exact Hg].
    + destruct (IH (to_int32 (total + n)) s1) as (Hself' & k' & Hk' & Hg').
      split; [congruence|]. exists (k + k')%nat. cbn [List.length].
      split; [lia|]. rewrite Hg', Hg, paired_plus, app_assoc. reflexivity.
Qed.

Lemma readQueuedMessages_loop_frame (os : OS) (i : nat) :
  forall (messages : list CanMessage) (s : state),
    is_open s ->
    let s' := snd (readQueuedMessages_loop os i messages s) in
    self s' = self s /\ guards s' = guards s.
Proof.
  induction i as [|i IH]; intros messages s Hopen; cbv zeta.
  - split; reflexivity.
  - cbn [readQueuedMessages_loop]. unfold bind.
    rewrite (readMessageLock_false_open os s Hopen). cbv zeta.
    destruct (0 >? readBytes_of _).
    + split; reflexivity.
    + match goal with
      | |- context [readQueuedMessages_loop os i ?acc ?s1] =>
          destruct (IH acc s1 Hopen) as [Hself Hg]
      end.
      cbn [self guards] in Hself, Hg. split; assumption.
Qed.

Lemma readQueuedMessages_frame (os : OS) (s : state) :
  let s' := after (readQueuedMessages os) s in
  self s' = self s
  /\ exists k, (k <= 1)%nat /\ guards s' = guards s ++ paired _lock k.
Proof.
  cbv zeta. unfold after.
  destruct (Z_lt_le_dec (_socketFd (self s)) 0) as [Hneg | Hopen].
  { rewrite readQueuedMessages_closed by exact Hneg. cbn [snd].
    split; [reflexivity|]. exists 0%nat. cbn. rewrite app_nil_r.
    split; [lia|reflexivity]. }
  assert (Efd : (_socketFd (self s) <? 0) = false) by (apply Z.ltb_ge; exact Hopen).
  assert (Hlocked : is_open (log_guard (Acquire _lock) s)) by exact Hopen.
  destruct (readQueuedMessages_loop_frame
              os (Z.to_nat (_queueSize (self s))) []
              (log_guard (Acquire _lock) s) Hlocked) as [Hself Hg].
  unfold readQueuedMessages. unfold_monad. rewrite Efd. unfold_monad.
  change (mk_state (self s) (calls s) (guards s ++ [Acquire _lock]) (errno s))
    with (log_guard (Acquire _lock) s).
  destruct (readQueuedMessages_loop os _ _ _) as [r s1].
  cbn [snd self guards] in *. split; [exact Hself|].
  exists 1%nat. split; [lia|]. rewrite Hg. cbn [log_guard guards].
  rewrite <- app_assoc. reflexivity.
Qed.

(** Every run of [initialiseSocketCan], returning or throwing: the calls
    made are the first [k] of the six, the handle is what [socket]
    returned, the other fields are as they were, and the receive guard was
    taken at most once, and released. *)
Lemma initialiseSocketCan_shape (os : OS) (s : state) :
  let d := self s in
  let h := calls s in
  let c1 := Socket PF_CAN SOCK_RAW (_canProtocol d) in
  let fd := to_int32 (ret (os h c1)) in
  let c2 := Ioctl fd SIOCGIFINDEX (_canInterface d) in
  let r2 := os (h ++ [c1]) c2 in
  let c3 := Fcntl fd F_GETFL None in
  let r3 := os (h ++ [c1; c2]) c3 in
  let c4 := Fcntl fd F_SETFL (Some (Z.lor (to_int32 (ret r3)) O_NONBLOCK)) in
  let c5 := Setsockopt fd SOL_CAN_RAW CAN_RAW_FILTER
                       (mk_can_filter (CanId_to_uint32 (_defaultSenderId d))
                                      (to_uint32 (_canFilterMask d)))
                       sizeof_can_filter in
  let c6 := Bind fd (mk_sockaddr_can AF_CAN (to_int32 (ifindex_out r2)))
                 sizeof_sockaddr_can in
  let s' := after (initialiseSocketCan os) s in
  self s' = mkCanDriver (_defaultSenderId d) (_canFilterMask d)
                        (_canProtocol d) fd (_queueSize d) (_canInterface d)
  /\ (exists k, (1 <= k <= 6)%nat
                /\ calls s' = h ++ firstn k [c1; c2; c3; c4; c5; c6]
                /\ (returns (initialiseSocketCan os) s tt -> k = 6%nat)
                /\ (fd <> -1 -> to_int32 (ret r2) <> -1 -> (4 <= k)%nat))
  /\ (exists j, (j <= 1)%nat /\ guards s' = guards s ++ paired _lock j)
  /\ (returns (initialiseSocketCan os) s tt -> 0 <= fd).
Proof.
  cbv zeta.
  unfold returns, result, after, initialiseSocketCan. unfold_monad.
  cbn [_socketFd _canFilterMask _defaultSenderId _canInterface _canProtocol].
  destruct (to_int32 (ret (os (calls s) _)) =? -1) eqn:E1; unfold_monad.
  { apply Z.eqb_eq in E1.
    split; [reflexivity|]. split; [|split].
    - exists 1%nat. repeat split; try lia; try discriminate.
    - exists 0%nat. cbn. rewrite app_nil_r. split; [lia|reflexivity].
    - discriminate. }
  apply Z.eqb_neq in E1.
  destruct (to_int32 (ret (os (calls s ++ _) _)) =? -1) eqn:E2; unfold_monad.
  { apply Z.eqb_eq in E2. flatten_history.
    split; [reflexivity|]. split; [|split].
    - exists 2%nat. repeat split; try lia; try discriminate.
    - exists 0%nat. cbn. rewrite app_nil_r. split; [lia|reflexivity].
    - discriminate. }
  apply Z.eqb_neq in E2.
  destruct (Z_lt_le_dec
              (to_int32 (ret (os (calls s)
                                 (Socket PF_CAN SOCK_RAW
                                         (_canProtocol (self s)))))) 0)
    as [Hneg | Hopen].
  { rewrite setCanFilterMask_closed by (cbn; exact Hneg). unfold_monad.
    flatten_history.
    split; [reflexivity|]. split; [|split].
    - exists 4%nat. repeat split; try lia; try discriminate.
    - exists 0%nat. cbn. rewrite app_nil_r. split; [lia|reflexivity].
    - discriminate. }
  rewrite setCanFilterMask_open by (unfold is_open; cbn; exact Hopen).
  cbv zeta.
  cbn [self calls guards errno _socketFd _canFilterMask _defaultSenderId
       _canInterface _canProtocol _queueSize].
  rewrite default_filter_id. flatten_history.
  match goal with
  | |- context [if ?c then inl _ else inr _] => destruct c eqn:E5
  end.
  { unfold_monad.
    split; [reflexivity|]. split; [|split].
    - exists 5%nat. repeat split; try lia; try discriminate.
    - exists 1%nat. split; [lia|reflexivity].
    - discriminate. }
  unfold_monad. flatten_history.
  match goal with
  | |- context [if ?c then _ else _] => destruct c eqn:E6
  end; unfold_monad; flatten_history.
  { split; [reflexivity|]. split; [|split].
    - exists 6%nat. repeat split; try lia; try discriminate.
    - exists 1%nat. split; [lia|reflexivity].
    - discriminate. }
  split; [reflexivity|]. split; [|split].
  - exists 6%nat. repeat split; try lia; try discriminate.
  - exists 1%nat. split; [lia|reflexivity].
  - intros _. exact Hopen.
Qed.







(** X4.  The I/O operations leave the object alone: [sendMessage],
    [sendMessageQueue], [readMessage] and [readQueuedMessages] change no
    field, whatever their outcome; [waitForMessages] changes at most
    [_queueSize] and [setCanFilterMask] at most [_canFilterMask].  So none
    of them opens or closes the channel. *)
Theorem io_keeps_object (os : OS) (s : state) (timeout mask id delay : Z)
        (message : CanMessage) (messages : list CanMessage)
        (forceExtended : bool) :
  self (after (sendMessage os message forceExtended) s) = self s
  /\ self (after (sendMessageQueue os messages delay forceExtended) s) = self s
  /\ self (after (readMessage os) s) = self s
  /\ self (after (readQueuedMessages os) s) = self s
  /\ (same_channel (self s) (self (after (waitForMessages os timeout) s))
      /\ _canFilterMask (self (after (waitForMessages os timeout) s))
         = _canFilterMask (self s))
  /\ (same_channel (self s) (self (after (setCanFilterMask os mask id) s))
      /\ _queueSize (self (after (setCanFilterMask os mask id) s))
         = _queueSize (self s)).
Proof.
  split; [apply (sendMessage_frame os message forceExtended s)|].
  split; [|split; [|split; [apply (readQueuedMessages_frame os s)|]]].
  - unfold after, sendMessageQueue. unfold_monad.
    destruct (_socketFd (self s) <? 0); [reflexivity|].
    apply (sendMessageQueue_loop_frame os forceExtended messages 0 s).
  - destruct (Z_lt_le_dec (_socketFd (self s)) 0) as [Hneg | Hopen].
    + apply (readMessageLock_closed os true s Hneg).
    + unfold after. now rewrite (readMessage_open os s Hopen).
  - destruct (Z_lt_le_dec (_socketFd (self s)) 0) as [Hneg | Hopen];
      unfold after, same_channel.
    + rewrite waitForMessages_closed, setCanFilterMask_closed by exact Hneg.
      repeat split.
    + rewrite (waitForMessages_open os timeout s Hopen),
        (setCanFilterMask_open os mask id s Hopen).
      cbv zeta. cbn [snd self].
      destruct (to_int32 _ =? -1); repeat split.
Qed.

(** ** Opening the channel *)

Lemma Forall_firstn_of {A} (P : A -> Prop) (l : list A) (k : nat) :
  Forall P l -> Forall P (firstn k l).
Proof.
  intros H. revert k. induction H as [|a l Ha Hl IH]; intros [|k]; cbn;
    constructor; auto.
Qed.

(** X5.  [initialiseSocketCan] never closes what it opened: whatever its
    outcome, it makes between one and six calls, none of them [close], and
    leaves in [_socketFd] what [socket] returned.  When it throws after
    [socket] succeeded, the object therefore still holds the descriptor. *)
Theorem initialise_never_closes (os : OS) (s : state) :
  let fd := to_int32 (ret (os (calls s)
                              (Socket 29 3 (_canProtocol (self s))))) in
  let s' := after (initialiseSocketCan os) s in
  getSocketFd (self s') = fd
  /\ exists made,
      calls s' = calls s ++ made
      /\ (1 <= List.length made <= 6)%nat
      /\ Forall (fun c => is_Close c = false) made.
Proof.
  cbv zeta.
  destruct (initialiseSocketCan_shape os s)
    as (Hself & (k & Hk & Hcalls & _) & _).
  split.
  - unfold getSocketFd. rewrite Hself. reflexivity.
  - eexists. split; [exact Hcalls|]. split.
    + rewrite length_firstn. cbn [List.length]. lia.
    + apply Forall_firstn_of. repeat constructor.
Qed.

(** X6.  A constructor that returns leaves an open channel: the handle is
    the descriptor [socket] returned and is not negative, the filter mask
    and the default sender id are the ones supplied, and the filter
    installed before the bind carries them.  [_queueSize] is not
    initialised: it is whatever the storage held.  (The three-argument
    constructor is this one with the mask 0.) *)
Theorem constructor_opens (os : OS) (canInterface : string)
        (canProtocol filterMask : Z) (defaultSenderId : CanId)
        (queueSize0 : Z) (s : state) :
  let run := CanDriver_new4 os canInterface canProtocol filterMask
                            defaultSenderId queueSize0 in
  let fd := to_int32 (ret (os (calls s) (Socket 29 3 canProtocol))) in
  returns run s tt ->
  let d := self (after run s) in
  is_open (after run s)
  /\ getSocketFd d = fd
  /\ getFilterMask d = filterMask
  /\ getDefaultSenderId d = defaultSenderId
  /\ getMessageQueueSize d = queueSize0
  /\ exists c2 c3 c4 addr,
      calls (after run s)
      = calls s ++ [Socket 29 3 canProtocol; c2; c3; c4;
                    Setsockopt fd 101 1
                               (mk_can_filter (CanId_to_uint32 defaultSenderId)
                                              (to_uint32 filterMask)) 8;
                    Bind fd addr 24].
Proof.
  cbv zeta. intros Hret.
  unfold returns, result in Hret. rewrite CanDriver_new4_run in Hret.
  unfold is_open, after, getSocketFd, getFilterMask, getDefaultSenderId,
    getMessageQueueSize.
  rewrite CanDriver_new4_run.
  match goal with
  | |- context [initialiseSocketCan os ?s0] =>
      destruct (initialiseSocketCan_shape os s0)
        as (Hself & (k & _ & Hcalls & Hk & _) & _ & Hfd)
  end.
  cbn [self calls _defaultSenderId _canFilterMask _canProtocol _queueSize
       _canInterface] in Hself, Hcalls, Hk, Hfd.
  unfold after in Hself, Hcalls. unfold returns, result in Hk, Hfd.
  rewrite (Hk Hret) in Hcalls. rewrite Hself, Hcalls. cbn [_socketFd
    _canFilterMask _defaultSenderId _queueSize firstn].
  split; [exact (Hfd Hret)|]. repeat split.
  do 4 eexists. reflexivity.
Qed.

Lemma constructor_opens_witness :
  returns (CanDriver_new3 (os_ok 0) "can0" 1 (mkCanId 0x123) 77)
          (a_state 55 0) tt
  /\ is_open (after (CanDriver_new3 (os_ok 0) "can0" 1 (mkCanId 0x123) 77)
                    (a_state 55 0))
  /\ getMessageQueueSize
       (self (after (CanDriver_new3 (os_ok 0) "can0" 1 (mkCanId 0x123) 77)
                    (a_state 55 0))) = 77
  /\ getFilterMask
       (self (after (CanDriver_new3 (os_ok 0) "can0" 1 (mkCanId 0x123) 77)
                    (a_state 55 0))) = 0.
Proof.
  assert (Hr : returns (CanDriver_new3 (os_ok 0) "can0" 1 (mkCanId 0x123) 77)
                       (a_state 55 0) tt) by reflexivity.
  split; [exact Hr|].
  pose proof (constructor_opens (os_ok 0) "can0" 1 0 (mkCanId 0x123) 77
                                (a_state 55 0)) as H.
  cbv zeta in H. destruct (H Hr) as (Ho & _ & Hm & _ & Hq & _).
  split; [exact Ho|]. split; [exact Hq | exact Hm].
Defined.

(** X7.  The switch to non-blocking mode keeps the other descriptor flags:
    whenever [socket] and [ioctl] do not return -1, the fourth call of
    [initialiseSocketCan] is [fcntl(F_SETFL)] with the flags that
    [fcntl(F_GETFL)] returned, bit 11 ([O_NONBLOCK]) set and every other
    bit as it was. *)
Theorem initialise_sets_nonblock (os : OS) (s : state) :
  let h := calls s in
  let c1 := Socket 29 3 (_canProtocol (self s)) in
  let fd := to_int32 (ret (os h c1)) in
  let c2 := Ioctl fd 0x8933 (_canInterface (self s)) in
  let getfl := to_int32 (ret (os (h ++ [c1; c2]) (Fcntl fd 3 None))) in
  fd <> -1 ->
  to_int32 (ret (os (h ++ [c1]) c2)) <> -1 ->
  exists made flags,
    calls (after (initialiseSocketCan os) s) = h ++ made
    /\ nth_error made 2 = Some (Fcntl fd 3 None)
    /\ nth_error made 3 = Some (Fcntl fd 4 (Some flags))
    /\ Z.testbit flags 11 = true
    /\ forall i, i <> 11 -> Z.testbit flags i = Z.testbit getfl i.
Proof.
  cbv zeta. intros Hfd Hioctl.
  destruct (initialiseSocketCan_shape os s)
    as (_ & (k & Hk & Hcalls & _ & Hfour) & _).
  specialize (Hfour Hfd Hioctl).
  eexists _, _. split; [exact Hcalls|].
  assert (Hk4 : exists k', k = (4 + k')%nat) by (exists (k - 4)%nat; lia).
  destruct Hk4 as [k' ->]. cbn [firstn Nat.add nth_error].
  split; [reflexivity|]. split; [reflexivity|]. split.
  - rewrite Z.lor_spec. change O_NONBLOCK with (2 ^ 11).
    rewrite Z.pow2_bits_true by lia. apply orb_true_r.
  - intros i Hi. rewrite Z.lor_spec. change O_NONBLOCK with (2 ^ 11).
    destruct (Z_lt_le_dec i 0) as [Hneg | Hpos].
    + now rewrite !Z.testbit_neg_r by lia.
    + rewrite Z.pow2_bits_false by lia. apply orb_false_r.
Qed.

Lemma initialise_sets_nonblock_witness :
  exists made flags,
    calls (after (initialiseSocketCan (os_ok 0)) (a_state (-1) 0)) = [] ++ made
    /\ nth_error made 3 = Some (Fcntl 3 4 (Some flags))
    /\ Z.testbit flags 11 = true
    /\ Z.testbit flags 1 = true.
Proof.
  destruct (initialise_sets_nonblock (os_ok 0) (a_state (-1) 0))
    as (made & flags & Hcalls & _ & H4 & Hbit & Hother).
  - vm_compute. discriminate.
  - vm_compute. discriminate.
  - exists made, flags. split; [exact Hcalls|]. split; [exact H4|].
    split; [exact Hbit|]. rewrite Hother by lia. reflexivity.
Defined.

(** ** Readiness wait, the timeout and the batch that follows *)

Lemma to_int64_small z : - 2 ^ 63 <= z < 2 ^ 63 -> to_int64 z = z.
Proof.
  unfold to_int64. intros H. rewrite Z.mod_small by lia. lia.
Qed.

(** X8.  The [timeval] of [waitForMessages].  For a timeout of [t]
    milliseconds, 0 <= t < 2^53, [select] is called with
    [tv_sec = t / 1000] and [tv_usec = t * 1000]: the microseconds are the
    whole timeout, not its sub-second part.  The duration passed is
    therefore [t] ms plus [t / 1000] s: exactly [t] below one second, and
    longer than asked from one second on, where [tv_usec] is at least
    1000000. *)
Theorem waitForMessages_timeval (os : OS) (timeout : Z) (s : state) :
  is_open s ->
  0 <= timeout < 2 ^ 53 ->
  exists nfds tv,
    calls (after (waitForMessages os timeout) s)
    = calls s ++ [Select nfds [_socketFd (self s)] tv]
    /\ tv_sec tv = timeout / 1000
    /\ tv_usec tv = timeout * 1000
    /\ timeval_usec tv = 1000 * timeout + 1000000 * (timeout / 1000)
    /\ (timeout < 1000 -> timeval_usec tv = 1000 * timeout)
    /\ (1000 <= timeout ->
        1000 * timeout < timeval_usec tv /\ 1000000 <= tv_usec tv).
Proof.
  intros Hopen Hrange. unfold after.
  rewrite (waitForMessages_open os timeout s Hopen). cbv zeta. cbn [snd calls].
  eexists _, _. split; [reflexivity|].
  unfold timeval_usec. cbn [tv_sec tv_usec].
  rewrite Z.quot_div_nonneg by lia.
  rewrite to_int64_small by lia.
  assert (Hdiv : 0 <= timeout / 1000) by (apply Z.div_pos; lia).
  repeat split; try lia.
  - intros Hlt. rewrite Z.div_small by lia. lia.
  - assert (1 <= timeout / 1000) by (apply Z.div_le_lower_bound; lia). lia.
Qed.

Lemma waitForMessages_timeval_witness :
  is_open (a_state 3 0)
  /\ 0 <= 3000 < 2 ^ 53
  /\ calls (after (waitForMessages (os_ok 0) 3000) (a_state 3 0))
     = [Select 4 [3] (mk_timeval 3 3000000)]
  /\ timeval_usec (mk_timeval 3 3000000) = 6000000.
Proof.
  assert (Ho : is_open (a_state 3 0)) by (unfold is_open; simpl; lia).
  assert (Hr : 0 <= 3000 < 2 ^ 53) by lia.
  split; [exact Ho|]. split; [exact Hr|].
  destruct (waitForMessages_timeval (os_ok 0) 3000 (a_state 3 0) Ho Hr)
    as (nfds & tv & Hcalls & _ & _ & Husec & _).
  assert (Htv : tv = mk_timeval 3 3000000 /\ nfds = 4).
  { vm_compute in Hcalls. injection Hcalls as -> ->. split; reflexivity. }
  destruct Htv as [-> ->]. split; [exact Hcalls|]. rewrite Husec. reflexivity.
Defined.

Lemma readQueuedMessages_open (os : OS) (s : state) :
  is_open s ->
  readQueuedMessages os s
  = (let (r, s') := readQueuedMessages_loop
                      os (Z.to_nat (_queueSize (self s))) []
                      (log_guard (Acquire _lock) s) in
     (r, log_guard (Release _lock) s')).
Proof.
  intros Hopen. not_negative Hopen.
  unfold readQueuedMessages. unfold_monad. now rewrite Efd.
Qed.

(** X9.  A batch receive after a wait that returned false reads nothing:
    it makes no system call and returns the empty queue.  This covers the
    wait that timed out and the wait whose [select] failed. *)
Theorem drain_after_idle_wait (os : OS) (timeout : Z) (s : state) :
  is_open s ->
  returns (waitForMessages os timeout) s false ->
  let s1 := after (waitForMessages os timeout) s in
  returns (readQueuedMessages os) s1 []
  /\ calls (after (readQueuedMessages os) s1) = calls s1.
Proof.
  intros Hopen Hfalse. cbv zeta.
  destruct (waitForMessages_sets_queueSize os timeout s Hopen)
    as (Hopen1 & _ & Hq).
  cbv zeta in Hopen1, Hq.
  unfold returns, result in Hfalse.
  rewrite (waitForMessages_open os timeout s Hopen) in Hfalse.
  cbv zeta in Hfalse. cbn [fst] in Hfalse.
  injection Hfalse as Hfalse. rewrite Z.gtb_ltb in Hfalse.
  apply Z.ltb_ge in Hfalse.
  remember (after (waitForMessages os timeout) s) as s1 eqn:Hs1.
  unfold returns, result, after.
  rewrite (readQueuedMessages_open os s1 Hopen1), Hq.
  replace (Z.to_nat _) with 0%nat by lia.
  cbn. split; reflexivity.
Qed.

Lemma drain_after_idle_wait_witness :
  is_open (a_state 3 9)
  /\ returns (waitForMessages (os_failing (fun _ c => is_Select c) 4 1) 10)
             (a_state 3 9) false
  /\ returns (readQueuedMessages (os_failing (fun _ c => is_Select c) 4 1))
             (after (waitForMessages
                       (os_failing (fun _ c => is_Select c) 4 1) 10)
                    (a_state 3 9)) [].
Proof.
  assert (Ho : is_open (a_state 3 9)) by (unfold is_open; simpl; lia).
  assert (Hf : returns (waitForMessages
                          (os_failing (fun _ c => is_Select c) 4 1) 10)
                       (a_state 3 9) false) by reflexivity.
  split; [exact Ho|]. split; [exact Hf|].
  exact (proj1 (drain_after_idle_wait
                  (os_failing (fun _ c => is_Select c) 4 1) 10 (a_state 3 9)
                  Ho Hf)).
Defined.

(** ** Batch receive, the failing read *)

Lemma readQueuedMessages_loop_break (os : OS) (i : nat) :
  forall (messages : list CanMessage) (s : state) (ok rest : list reply)
         (bad : reply),
    is_open s ->
    read_replies os (calls s) (_socketFd (self s)) i = ok ++ bad :: rest ->
    Forall (fun r => 0 <= readBytes_of r) ok ->
    readBytes_of bad < 0 ->
    readQueuedMessages_loop os i messages s
    = (inl (read_failed (errno_out bad) (_socketFd (self s))),
       mk_state (self s)
                (calls s ++ repeat (Read (_socketFd (self s)) sizeof_can_frame)
                                   (S (List.length ok)))
                (guards s) (errno_out bad)).
Proof.
  induction i as [|i IH]; intros messages s ok rest bad Hopen Hrs Hok Hbad.
  - cbn in Hrs. destruct ok; discriminate.
  - cbn [read_replies] in Hrs. cbn [readQueuedMessages_loop]. unfold bind.
    rewrite (readMessageLock_false_open os s Hopen). cbv zeta.
    destruct ok as [|r0 ok].
    + cbn [app] in Hrs. injection Hrs as Hr0 _. rewrite Hr0.
      replace (0 >? readBytes_of bad) with true
        by (symmetry; rewrite Z.gtb_ltb; apply Z.ltb_lt; exact Hbad).
      reflexivity.
    + cbn [app] in Hrs. injection Hrs as Hr0 Htail. rewrite Hr0.
      inversion Hok as [|? ? Hr0ok Hok']; subst.
      replace (0 >? readBytes_of (os (calls s) _)) with false
        by (symmetry; rewrite Z.gtb_ltb; apply Z.ltb_ge; exact Hr0ok).
      match goal with
      | |- readQueuedMessages_loop os i ?acc ?s1 = _ =>
          rewrite (IH acc s1 ok rest bad Hopen Htail Hok' Hbad)
      end.
      cbn [self calls guards List.length repeat]. rewrite <- app_assoc.
      reflexivity.
Qed.

(** X10.  A failing read discards the batch.  When the first [k] reads of
    [readQueuedMessages] succeed and the next one reports a negative
    count, the call throws the [CanException] of that read, with its
    [errno] and the handle; the [k + 1] reads were made, so the [k] frames
    already taken from the socket are not delivered to the caller. *)
Theorem drain_discards_on_failure (os : OS) (s : state)
        (ok rest : list reply) (bad : reply) :
  is_open s ->
  let fd := _socketFd (self s) in
  read_replies os (calls s) fd (Z.to_nat (_queueSize (self s)))
  = ok ++ bad :: rest ->
  Forall (fun r => 0 <= readBytes_of r) ok ->
  readBytes_of bad < 0 ->
  throws (readQueuedMessages os) s (read_failed (errno_out bad) fd)
  /\ calls (after (readQueuedMessages os) s)
     = calls s ++ repeat (Read fd 16) (S (List.length ok))
  /\ self (after (readQueuedMessages os) s) = self s.
Proof.
  intros Hopen fd Hrs Hok Hbad.
  assert (Hlocked : is_open (log_guard (Acquire _lock) s)) by exact Hopen.
  unfold throws, result, after.
  rewrite (readQueuedMessages_open os s Hopen).
  rewrite (readQueuedMessages_loop_break
             os _ [] (log_guard (Acquire _lock) s) ok rest bad Hlocked Hrs Hok
             Hbad).
  cbn. repeat split.
Qed.

Lemma drain_discards_on_failure_witness :
  throws (readQueuedMessages
            (os_failing (fun h c => is_Read c && (reads_so_far h =? 2)) 100 0))
         (a_state 3 3) (read_failed 100 3)
  /\ calls (after (readQueuedMessages
                     (os_failing (fun h c => is_Read c && (reads_so_far h =? 2))
                                 100 0))
                  (a_state 3 3))
     = [Read 3 16; Read 3 16; Read 3 16].
Proof.
  assert (Ho : is_open (a_state 3 3)) by (unfold is_open; simpl; lia).
  pose proof (drain_discards_on_failure
                (os_failing (fun h c => is_Read c && (reads_so_far h =? 2)) 100 0)
                (a_state 3 3)
                [mk_reply 16 (queued_frame 0) 0 0;
                 mk_reply 16 (queued_frame 1) 0 0]
                [] (mk_reply (-1) zero_frame 0 100) Ho) as H.
  cbv zeta in H.
  destruct H as (Ht & Hc & _).
  - reflexivity.
  - repeat constructor; vm_compute; discriminate.
  - vm_compute. reflexivity.
  - split; [exact Ht | exact Hc].
Defined.

(** ** Batch send, totals and composition *)

Lemma to_int32_add_r (a b : Z) : to_int32 (a + to_int32 b) = to_int32 (a + b).
Proof. rewrite Z.add_comm, to_int32_add_l. f_equal. lia. Qed.

Lemma to_int32_range z : in_int32 (to_int32 z).
Proof.
  unfold in_int32, to_int32.
  pose proof (Z.mod_pos_bound (z + 2 ^ 31) (2 ^ 32) ltac:(lia)). lia.
Qed.

Lemma running_total_0 (ns : list Z) :
  fold_left (fun total n => to_int32 (total + n)) ns 0
  = to_int32 (list_sum ns).
Proof.
  change 0 with (to_int32 0) at 1. now rewrite running_total, Z.add_0_l.
Qed.

Lemma sendMessageQueue_open (os : OS) (messages : list CanMessage)
      (delay : Z) (forceExtended : bool) (s : state) :
  is_open s ->
  sendMessageQueue os messages delay forceExtended s
  = sendMessageQueue_loop os messages forceExtended 0 s.
Proof.
  intros Hopen. not_negative Hopen.
  unfold sendMessageQueue. unfold_monad. now rewrite Efd.
Qed.

(** On an operating system whose writes take the whole buffer, every
    message of at most eight bytes is sent, with a count of 16. *)
Lemma sent_all_whole (os : OS) (forceExtended : bool)
      (messages : list CanMessage) :
  writes_whole os ->
  Forall (fun m => Z.of_nat (List.length (getFrameData m)) <= 8) messages ->
  forall s, is_open s ->
            exists s', sent_all os forceExtended s messages
                                (repeat 16 (List.length messages)) s'.
Proof.
  intros Hos Hall. induction Hall as [|m rest Hm Hrest IH]; intros s Hopen.
  - exists s. constructor.
  - pose proof (sendMessage_open_small os m forceExtended s Hopen Hm) as Hrun.
    cbv zeta in Hrun. rewrite Hos in Hrun. cbn in Hrun.
    match type of Hrun with
    | _ = (_, ?s1) => destruct (IH s1 Hopen) as [s' Hs']
    end.
    exists s'. cbn [List.length repeat]. econstructor; eassumption.
Qed.

Lemma list_sum_repeat (n : Z) (k : nat) :
  list_sum (repeat n k) = n * Z.of_nat k.
Proof.
  induction k as [|k IH]; cbn [repeat list_sum fold_right]; [lia|].
  fold (list_sum (repeat n k)). rewrite IH. lia.
Qed.

(** X11.  The total of a batch.  On an open channel, when every [write]
    takes the whole frame and every payload is at most eight bytes,
    [sendMessageQueue] sends all [n] messages, one [write] each in queue
    order, and returns [16 * n], as long as that fits an [int32_t]. *)
Theorem sendMessageQueue_total (os : OS) (messages : list CanMessage)
        (delay : Z) (forceExtended : bool) (s : state) :
  is_open s ->
  writes_whole os ->
  Forall (fun m => Z.of_nat (List.length (getFrameData m)) <= 8) messages ->
  16 * Z.of_nat (List.length messages) < 2 ^ 31 ->
  let run := sendMessageQueue os messages delay forceExtended in
  returns run s (16 * Z.of_nat (List.length messages))
  /\ calls (after run s)
     = calls s ++ writes_of (_socketFd (self s)) forceExtended messages.
Proof.
  intros Hopen Hos Hall Hfits. cbv zeta.
  destruct (sent_all_whole os forceExtended messages Hos Hall s Hopen)
    as [s' Hsent].
  pose proof (sendMessageQueue_loop_all _ _ _ _ _ _ Hsent 0) as Hloop.
  rewrite running_total_0, list_sum_repeat in Hloop.
  assert (Hin : in_int32 (16 * Z.of_nat (List.length messages)))
    by (unfold in_int32; lia).
  rewrite (to_int32_id _ Hin) in Hloop.
  unfold returns, result, after.
  rewrite (sendMessageQueue_open os messages delay forceExtended s Hopen), Hloop.
  cbn [fst snd]. split; [reflexivity|].
  apply (sent_all_calls _ _ _ _ _ _ Hsent).
Qed.

Lemma sendMessageQueue_total_witness :
  is_open (a_state 3 0)
  /\ writes_whole (os_ok 0)
  /\ returns (sendMessageQueue (os_ok 0) [msg 1 []; msg 2 [5]; msg 3 [6; 7]]
                               20 true) (a_state 3 0) 48.
Proof.
  assert (Ho : is_open (a_state 3 0)) by (unfold is_open; simpl; lia).
  assert (Hw : writes_whole (os_ok 0)) by (intros h fd buf count; reflexivity).
  split; [exact Ho|]. split; [exact Hw|].
  refine (proj1 (sendMessageQueue_total
                   (os_ok 0) [msg 1 []; msg 2 [5]; msg 3 [6; 7]] 20 true
                   (a_state 3 0) Ho Hw _ _)).
  - repeat constructor; simpl; lia.
  - simpl. lia.
Defined.

(** The loop over a concatenation is the loop over the first part, then
    over the second from the total reached. *)
Lemma sendMessageQueue_loop_app (os : OS) (forceExtended : bool)
      (a b : list CanMessage) :
  forall (total : Z) (s : state),
    sendMessageQueue_loop os (a ++ b) forceExtended total s
    = match sendMessageQueue_loop os a forceExtended total s with
      | (inr t, s1) => sendMessageQueue_loop os b forceExtended t s1
      | (inl e, s1) => (inl e, s1)
      end.
Proof.
  induction a as [|m a IH]; intros total s; [reflexivity|].
  cbn [app sendMessageQueue_loop]. unfold bind.
  destruct (sendMessage os m forceExtended s) as [[e | n] s1];
    [reflexivity | apply IH].
Qed.

(** The value the loop returns, from any starting total that fits. *)
Lemma sendMessageQueue_loop_from (os : OS) (forceExtended : bool)
      (messages : list CanMessage) (s : state) (total : Z) :
  in_int32 total ->
  sendMessageQueue_loop os messages forceExtended total s
  = match sendMessageQueue_loop os messages forceExtended 0 s with
    | (inr t, s1) => (inr (to_int32 (total + t)), s1)
    | (inl e, s1) => (inl e, s1)
    end.
Proof.
  intros Hfit.
  destruct (sends_decompose os forceExtended messages s)
    as [(ns & s' & Hall)
       | (pre & m & post & ns & s1 & e & s2 & -> & Hall & Hfail)].
  - rewrite (sendMessageQueue_loop_all _ _ _ _ _ _ Hall total),
      (sendMessageQueue_loop_all _ _ _ _ _ _ Hall 0).
    rewrite running_total_0, to_int32_add_r.
    rewrite <- (to_int32_id total Hfit) at 1.
    rewrite running_total. reflexivity.
  - rewrite !(sendMessageQueue_loop_stops _ _ _ _ _ _ post _ _ _ Hall Hfail).
    reflexivity.
Qed.

Lemma sendMessageQueue_loop_fits (os : OS) (forceExtended : bool)
      (messages : list CanMessage) (s s' : state) (t : Z) :
  sendMessageQueue_loop os messages forceExtended 0 s = (inr t, s') ->
  in_int32 t.
Proof.
  intros Hrun.
  destruct (sends_decompose os forceExtended messages s)
    as [(ns & s1 & Hall)
       | (pre & m & post & ns & s1 & e & s2 & -> & Hall & Hfail)].
  - rewrite (sendMessageQueue_loop_all _ _ _ _ _ _ Hall 0) in Hrun.
    rewrite running_total_0 in Hrun.
    injection Hrun as <- _. apply to_int32_range.
  - rewrite (sendMessageQueue_loop_stops _ _ _ _ _ _ post _ _ _ Hall Hfail)
      in Hrun.
    discriminate.
Qed.

(** X12.  Batches compose.  On an open channel, sending the queue
    [a ++ b] is sending [a] and then [b]: when the batch [a] returns [ta]
    and the batch [b], run from the state [a] left, returns [tb], the batch
    [a ++ b] returns their [int32_t] sum and ends in the same state; when
    the batch [a] throws, the batch [a ++ b] throws the same exception in
    the same state and nothing of [b] is sent. *)
Theorem sendMessageQueue_app (os : OS) (a b : list CanMessage)
        (delay : Z) (forceExtended : bool) (s : state) :
  is_open s ->
  let run_a := sendMessageQueue os a delay forceExtended in
  let run_b := sendMessageQueue os b delay forceExtended in
  let run_ab := sendMessageQueue os (a ++ b) delay forceExtended in
  (forall ta tb,
      returns run_a s ta -> returns run_b (after run_a s) tb ->
      returns run_ab s (to_int32 (ta + tb))
      /\ after run_ab s = after run_b (after run_a s))
  /\ (forall e, throws run_a s e ->
                throws run_ab s e /\ after run_ab s = after run_a s).
Proof.
  intros Hopen. cbv zeta.
  assert (Hself : self (after (sendMessageQueue os a delay forceExtended) s)
                  = self s).
  { unfold after.
    rewrite (sendMessageQueue_open os a delay forceExtended s Hopen).
    apply (sendMessageQueue_loop_frame os forceExtended a 0 s). }
  assert (Hopen1 : is_open (after (sendMessageQueue os a delay forceExtended) s))
    by (unfold is_open; rewrite Hself; exact Hopen).
  unfold returns, throws, result.
  remember (after (sendMessageQueue os a delay forceExtended) s) as s1 eqn:Hs1.
  unfold after in *.
  rewrite (sendMessageQueue_open os (a ++ b) delay forceExtended s Hopen),
    sendMessageQueue_loop_app.
  rewrite (sendMessageQueue_open os a delay forceExtended s Hopen) in *.
  destruct (sendMessageQueue_loop os a forceExtended 0 s) as [[e | ta'] s1']
    eqn:Hrun_a; cbn [fst snd] in *; subst s1.
  - split.
    + intros ta tb Hta. discriminate.
    + intros e' He'. split; [exact He' | reflexivity].
  - split.
    + intros ta tb Hta Htb. injection Hta as ->.
      rewrite (sendMessageQueue_open os b delay forceExtended s1' Hopen1) in *.
      rewrite (sendMessageQueue_loop_from os forceExtended b s1' ta)
        by (eapply sendMessageQueue_loop_fits; eassumption).
      destruct (sendMessageQueue_loop os b forceExtended 0 s1')
        as [[e | tb'] s2]; cbn [fst snd] in *; [discriminate|].
      injection Htb as ->. split; reflexivity.
    + intros e He. discriminate.
Qed.

Lemma sendMessageQueue_app_witness :
  is_open (a_state 3 0)
  /\ returns (sendMessageQueue (os_ok 0) ([msg 1 [1]] ++ [msg 2 [2]; msg 3 []])
                               20 false) (a_state 3 0) 48
  /\ throws (sendMessageQueue (os_ok 0)
                              ([msg 1 [1; 2; 3; 4; 5; 6; 7; 8; 9]] ++ [msg 2 [2]])
                              20 false) (a_state 3 0)
            (invalid_data_length 8 3).
Proof.
  assert (Ho : is_open (a_state 3 0)) by (unfold is_open; simpl; lia).
  split; [exact Ho|].
  pose proof (sendMessageQueue_app (os_ok 0) [msg 1 [1]] [msg 2 [2]; msg 3 []]
                                   20 false (a_state 3 0) Ho) as Hgood.
  pose proof (sendMessageQueue_app
                (os_ok 0) [msg 1 [1; 2; 3; 4; 5; 6; 7; 8; 9]] [msg 2 [2]]
                20 false (a_state 3 0) Ho) as Hbad.
  cbv zeta in Hgood, Hbad.
  destruct Hgood as [Hgood _]. destruct Hbad as [_ Hbad].
  split.
  - exact (proj1 (Hgood 16 32 eq_refl eq_refl)).
  - exact (proj1 (Hbad (invalid_data_length 8 3) eq_refl)).
Defined.

(** ** Lifecycle *)

(** X13.  Use after close.  Once [uninitialiseSocketCan] has closed a
    positive handle, the handle reads -1 and every later operation is
    refused without a system call: the I/O and filter operations throw the
    [InvalidSocketException] carrying -1, a further close throws the
    [CanCloseException]. *)
Theorem use_after_close (os : OS) (s : state) (timeout mask id delay : Z)
        (message : CanMessage) (messages : list CanMessage)
        (forceExtended : bool) :
  0 < _socketFd (self s) ->
  returns (uninitialiseSocketCan os) s tt ->
  let s1 := after (uninitialiseSocketCan os) s in
  getSocketFd (self s1) = -1
  /\ calls s1 = calls s ++ [Close (_socketFd (self s))]
  /\ (forall s2,
         In s2 [after (waitForMessages os timeout) s1;
                after (readMessage os) s1;
                after (sendMessage os message forceExtended) s1;
                after (sendMessageQueue os messages delay forceExtended) s1;
                after (readQueuedMessages os) s1;
                after (setCanFilterMask os mask id) s1;
                after (uninitialiseSocketCan os) s1] ->
         calls s2 = calls s1)
  /\ throws (waitForMessages os timeout) s1 (invalid_socket (-1))
  /\ throws (readMessage os) s1 (invalid_socket (-1))
  /\ throws (sendMessage os message forceExtended) s1 (invalid_socket (-1))
  /\ throws (sendMessageQueue os messages delay forceExtended) s1
            (invalid_socket (-1))
  /\ throws (readQueuedMessages os) s1 (invalid_socket (-1))
  /\ throws (setCanFilterMask os mask id) s1 (invalid_socket (-1))
  /\ throws (uninitialiseSocketCan os) s1 close_invalid.
Proof.
  intros Hpos Hret. cbv zeta.
  assert (Hs1 : _socketFd (self (after (uninitialiseSocketCan os) s)) = -1
                /\ calls (after (uninitialiseSocketCan os) s)
                   = calls s ++ [Close (_socketFd (self s))]).
  { unfold returns, result in Hret. unfold after.
    rewrite (uninitialiseSocketCan_positive os s Hpos) in *. cbv zeta in *.
    cbn [fst snd self calls] in *.
    destruct (to_int32 _ =? -1); [discriminate|]. split; reflexivity. }
  destruct Hs1 as [Hfd Hcalls].
  remember (after (uninitialiseSocketCan os) s) as s1 eqn:Es1.
  assert (Hneg : _socketFd (self s1) < 0) by lia.
  destruct (readMessageLock_closed os true s1 Hneg) as (Hr & Hc & _).
  split; [exact Hfd|]. split; [exact Hcalls|].
  unfold throws, result, after in *. unfold readMessage.
  rewrite waitForMessages_closed, sendMessage_closed, sendMessageQueue_closed,
    readQueuedMessages_closed, setCanFilterMask_closed,
    uninitialiseSocketCan_not_positive by lia.
  rewrite Hr, Hfd. cbn [fst snd].
  split; [|repeat split].
  intros s2 Hin. cbn [In] in Hin.
  repeat (destruct Hin as [<- | Hin]; [first [reflexivity | exact Hc]|]).
  contradiction.
Qed.

Lemma use_after_close_witness :
  0 < _socketFd (self (a_state 3 0))
  /\ returns (uninitialiseSocketCan (os_ok 0)) (a_state 3 0) tt
  /\ throws (sendMessage (os_ok 0) (msg 1 [1]) false)
            (after (uninitialiseSocketCan (os_ok 0)) (a_state 3 0))
            (invalid_socket (-1))
  /\ calls (after (uninitialiseSocketCan (os_ok 0)) (a_state 3 0)) = [Close 3].
Proof.
  assert (Hp : 0 < _socketFd (self (a_state 3 0))) by (simpl; lia).
  assert (Hr : returns (uninitialiseSocketCan (os_ok 0)) (a_state 3 0) tt)
    by reflexivity.
  split; [exact Hp|]. split; [exact Hr|].
  pose proof (use_after_close (os_ok 0) (a_state 3 0) 0 0 0 0 (msg 1 [1]) []
                              false Hp Hr) as H.
  cbv zeta in H. destruct H as (_ & Hc & _ & _ & _ & Hs & _).
  split; [exact Hs | exact Hc].
Defined.

(** X14.  Construct, then destroy.  When the constructor returns with a
    positive descriptor and the operating system accepts the [close], the
    destructor returns, the system calls of the whole life are the six of
    the initialisation followed by one [close] of that descriptor, and the
    handle ends at -1. *)
Theorem construct_then_destroy (os : OS) (canInterface : string)
        (canProtocol filterMask : Z) (defaultSenderId : CanId)
        (queueSize0 : Z) (s : state) :
  let ctor := CanDriver_new4 os canInterface canProtocol filterMask
                             defaultSenderId queueSize0 in
  let fd := to_int32 (ret (os (calls s) (Socket 29 3 canProtocol))) in
  returns ctor s tt ->
  fd <> 0 ->
  to_int32 (ret (os (calls (after ctor s)) (Close fd))) <> -1 ->
  let s2 := after (CanDriver_delete os) (after ctor s) in
  returns (CanDriver_delete os) (after ctor s) tt
  /\ getSocketFd (self s2) = -1
  /\ exists made,
      calls s2 = calls s ++ made ++ [Close fd]
      /\ List.length made = 6%nat
      /\ Forall (fun c => is_Close c = false) made.
Proof.
  cbv zeta. intros Hret Hnz Hclose.
  unfold returns, result in Hret |- *. unfold after, CanDriver_delete in *.
  rewrite CanDriver_new4_run in *.
  match type of Hret with
  | fst (initialiseSocketCan os ?s0) = _ =>
      destruct (initialiseSocketCan_shape os s0)
        as (Hself & (k & _ & Hcalls & Hk & _) & _ & Hfd)
  end.
  cbn [self calls _defaultSenderId _canFilterMask _canProtocol _queueSize
       _canInterface] in Hself, Hcalls, Hk, Hfd.
  unfold after, returns, result in Hself, Hcalls, Hk, Hfd.
  specialize (Hk Hret). specialize (Hfd Hret). subst k.
  change PF_CAN with 29 in *. change SOCK_RAW with 3 in *.
  match type of Hself with
  | self ?st = _ => remember st as s1 eqn:Es1
  end.
  assert (Hpos : 0 < _socketFd (self s1))
    by (rewrite Hself; cbn [_socketFd]; lia).
  assert (Hfd1 : _socketFd (self s1)
                 = to_int32 (ret (os (calls s) (Socket 29 3 canProtocol))))
    by (rewrite Hself; reflexivity).
  rewrite (uninitialiseSocketCan_positive os s1 Hpos). cbv zeta.
  rewrite Hfd1. apply Z.eqb_neq in Hclose. rewrite Hclose.
  cbn [fst snd self calls]. unfold getSocketFd. cbn [_socketFd].
  split; [reflexivity|]. split; [reflexivity|].
  eexists. split.
  - rewrite Hcalls, <- app_assoc. reflexivity.
  - split; [reflexivity|]. repeat constructor.
Qed.

Lemma construct_then_destroy_witness :
  returns (CanDriver_new4 (os_ok 0) "can0" 1 0x7FF (mkCanId 0x123) 0)
          (a_state 0 0) tt
  /\ returns (CanDriver_delete (os_ok 0))
             (after (CanDriver_new4 (os_ok 0) "can0" 1 0x7FF (mkCanId 0x123) 0)
                    (a_state 0 0)) tt
  /\ getSocketFd
       (self (after (CanDriver_delete (os_ok 0))
                    (after (CanDriver_new4 (os_ok 0) "can0" 1 0x7FF
                                           (mkCanId 0x123) 0)
                           (a_state 0 0)))) = -1.
Proof.
  assert (Hr : returns (CanDriver_new4 (os_ok 0) "can0" 1 0x7FF (mkCanId 0x123) 0)
                       (a_state 0 0) tt) by reflexivity.
  split; [exact Hr|].
  pose proof (construct_then_destroy (os_ok 0) "can0" 1 0x7FF (mkCanId 0x123) 0
                                     (a_state 0 0)) as H.
  cbv zeta in H.
  destruct (H Hr ltac:(vm_compute; discriminate) ltac:(vm_compute; discriminate))
    as (Hd & Hfd & _).
  split; [exact Hd | exact Hfd].
Defined.

(** ** What the exceptions carry *)

Lemma sendMessage_thrown_socket (os : OS) (message : CanMessage)
      (forceExtended : bool) (s s' : state) (e : exn) :
  sendMessage os message forceExtended s = (inl e, s') ->
  getSocket e = Some (_socketFd (self s)).
Proof.
  intros Hrun.
  destruct (Z_lt_le_dec (_socketFd (self s)) 0) as [Hneg | Hopen].
  { rewrite sendMessage_closed in Hrun by exact Hneg.
    injection Hrun as <- _. reflexivity. }
  destruct (Z_lt_le_dec CAN_MAX_DATA_LENGTH
                        (Z.of_nat (List.length (getFrameData message))))
    as [Hlong | Hshort].
  { rewrite sendMessage_open_long in Hrun by assumption.
    injection Hrun as <- _. reflexivity. }
  rewrite (sendMessage_open_small os message forceExtended s Hopen Hshort)
    in Hrun.
  cbv zeta in Hrun. destruct (to_int32 _ =? -1); [|discriminate].
  injection Hrun as <- _. reflexivity.
Qed.

Lemma readQueuedMessages_loop_thrown_socket (os : OS) (i : nat) :
  forall (messages : list CanMessage) (s s' : state) (e : exn),
    is_open s ->
    readQueuedMessages_loop os i messages s = (inl e, s') ->
    getSocket e = Some (_socketFd (self s)).
Proof.
  induction i as [|i IH]; intros messages s s' e Hopen Hrun.
  - discriminate.
  - cbn [readQueuedMessages_loop] in Hrun. unfold bind in Hrun.
    rewrite (readMessageLock_false_open os s Hopen) in Hrun. cbv zeta in Hrun.
    destruct (0 >? readBytes_of _).
    + injection Hrun as <- _. reflexivity.
    + apply IH in Hrun; [exact Hrun | exact Hopen].
Qed.

(** X15.  Every exception thrown by an I/O operation names the channel:
    whatever [waitForMessages], [readMessage], [sendMessage],
    [sendMessageQueue] or [readQueuedMessages] throws, on an open or a
    closed channel, at the first or at a later frame of a batch, its
    socket is the [_socketFd] of the object. *)
Theorem io_exceptions_carry_handle (os : OS) (s : state) (timeout delay : Z)
        (message : CanMessage) (messages : list CanMessage)
        (forceExtended : bool) (e : exn) :
  throws (waitForMessages os timeout) s e
  \/ throws (readMessage os) s e
  \/ throws (sendMessage os message forceExtended) s e
  \/ throws (sendMessageQueue os messages delay forceExtended) s e
  \/ throws (readQueuedMessages os) s e ->
  getSocket e = Some (_socketFd (self s)).
Proof.
  unfold throws, result.
  destruct (Z_lt_le_dec (_socketFd (self s)) 0) as [Hneg | Hopen].
  - destruct (readMessageLock_closed os true s Hneg) as (Hr & _ & _).
    unfold result in Hr. unfold readMessage. rewrite Hr.
    rewrite waitForMessages_closed, sendMessage_closed,
      sendMessageQueue_closed, readQueuedMessages_closed by exact Hneg.
    cbn [fst].
    intros [H | [H | [H | [H | H]]]]; injection H as <-; reflexivity.
  - rewrite (waitForMessages_open os timeout s Hopen),
      (readMessage_open os s Hopen),
      (sendMessageQueue_open os messages delay forceExtended s Hopen),
      (readQueuedMessages_open os s Hopen).
    cbv zeta. cbn [fst].
    intros [H | [H | [H | [H | H]]]].
    + discriminate.
    + destruct (0 >? readBytes_of _); [|discriminate].
      injection H as <-. reflexivity.
    + destruct (sendMessage os message forceExtended s) as [r s'] eqn:Hrun.
      cbn [fst] in H. subst r.
      exact (sendMessage_thrown_socket _ _ _ _ _ _ Hrun).
    + destruct (sends_decompose os forceExtended messages s)
        as [(ns & s' & Hall)
           | (pre & m & post & ns & s1 & e' & s2 & -> & Hall & Hfail)].
      * rewrite (sendMessageQueue_loop_all _ _ _ _ _ _ Hall 0) in H.
        discriminate.
      * rewrite (sendMessageQueue_loop_stops _ _ _ _ _ _ post _ _ _ Hall Hfail)
          in H.
        injection H as <-.
        rewrite (sendMessage_thrown_socket _ _ _ _ _ _ Hfail).
        now rewrite (proj1 (sent_all_calls _ _ _ _ _ _ Hall)).
    + assert (Hlocked : is_open (log_guard (Acquire _lock) s)) by exact Hopen.
      destruct (readQueuedMessages_loop os _ _ _) as [r s'] eqn:Hrun.
      cbn [fst] in H. subst r.
      exact (readQueuedMessages_loop_thrown_socket _ _ _ _ _ _ Hlocked Hrun).
Qed.

Lemma io_exceptions_carry_handle_witness :
  getSocket (invalid_data_length 8 3) = Some (_socketFd (self (a_state 3 0))).
Proof.
  apply (io_exceptions_carry_handle
           (os_ok 0) (a_state 3 0) 0 20 (msg 1 [1])
           [msg 1 [1]; msg 2 [1; 2; 3; 4; 5; 6; 7; 8; 9]] false).
  right. right. right. left. reflexivity.
Defined.

(** ** The default sender id and the filter *)

(** X16.  The default sender id is read when the filter is installed, not
    when the channel was opened: after [setDefaultSenderId(newId)], which
    changes no other field and makes no call, [setCanFilterMask(mask, 0)]
    on an open channel installs the filter whose identifier is [newId]. *)
Theorem setDefaultSenderId_then_filter (os : OS) (newId : CanId) (mask : Z)
        (s : state) :
  is_open s ->
  let s1 := after (setDefaultSenderId newId) s in
  returns (setDefaultSenderId newId) s tt
  /\ getDefaultSenderId (self s1) = newId
  /\ (_socketFd (self s1) = _socketFd (self s)
      /\ _canFilterMask (self s1) = _canFilterMask (self s)
      /\ _queueSize (self s1) = _queueSize (self s))
  /\ calls s1 = calls s
  /\ calls (after (setCanFilterMask os mask 0) s1)
     = calls s ++ [Setsockopt (_socketFd (self s)) 101 1
                              (mk_can_filter (CanId_to_uint32 newId)
                                             (to_uint32 mask)) 8].
Proof.
  intros Hopen. cbv zeta.
  split; [reflexivity|]. split; [reflexivity|].
  split; [repeat split|]. split; [reflexivity|].
  unfold after at 1.
  rewrite setCanFilterMask_open by exact Hopen. reflexivity.
Qed.

Lemma setDefaultSenderId_then_filter_witness :
  is_open (a_state 3 0)
  /\ calls (after (setCanFilterMask (os_ok 0) 0x7FF 0)
                  (after (setDefaultSenderId (mkCanId 0x456)) (a_state 3 0)))
     = [Setsockopt 3 101 1 (mk_can_filter 0x456 0x7FF) 8].
Proof.
  assert (Ho : is_open (a_state 3 0)) by (unfold is_open; simpl; lia).
  split; [exact Ho|].
  pose proof (setDefaultSenderId_then_filter (os_ok 0) (mkCanId 0x456) 0x7FF
                                             (a_state 3 0) Ho) as H.
  cbv zeta in H. destruct H as (_ & _ & _ & _ & H). exact H.
Defined.

(** ** The extended-frame flag touches one bit *)

(** X17.  The frame [sendMessage] writes differs from the raw frame of the
    message in bit 31 of [can_id] at most: every other bit of the
    identifier field (the 29 identifier bits, the RTR and the error flag),
    the data length code and the data are the message's own; and a frame
    that already carries the flag is written unchanged. *)
Theorem sendMessage_changes_only_eff_bit (os : OS) (message : CanMessage)
        (forceExtended : bool) (s : state) :
  is_open s ->
  Z.of_nat (List.length (getFrameData message)) <= 8 ->
  exists sent,
    calls (after (sendMessage os message forceExtended) s)
    = calls s ++ [Write (_socketFd (self s)) sent 16]
    /\ (forall i, i <> 31 ->
                  Z.testbit (can_id sent) i
                  = Z.testbit (can_id (getRawFrame message)) i)
    /\ can_dlc sent = can_dlc (getRawFrame message)
    /\ data sent = data (getRawFrame message)
    /\ (Z.testbit (can_id (getRawFrame message)) 31 = true ->
        can_id sent = can_id (getRawFrame message)).
Proof.
  intros Hopen Hlen.
  pose proof (sendMessage_open_small os message forceExtended s Hopen Hlen)
    as Hrun.
  cbv zeta in Hrun. unfold after. rewrite Hrun. cbn [snd calls].
  eexists. split; [reflexivity|]. unfold wire_frame. cbv zeta.
  destruct (wants_eff message forceExtended); [|repeat split].
  unfold or_eff_flag. cbn [can_id can_dlc data].
  change CAN_EFF_FLAG with (2 ^ 31).
  split; [|split; [reflexivity|split; [reflexivity|]]].
  - intros i Hi. rewrite Z.lor_spec.
    destruct (Z_lt_le_dec i 0) as [Hneg | Hpos].
    + now rewrite !Z.testbit_neg_r by lia.
    + rewrite Z.pow2_bits_false by lia. apply orb_false_r.
  - intros Hset. apply Z.bits_inj'. intros i Hi. rewrite Z.lor_spec.
    destruct (Z.eq_dec i 31) as [-> | Hne].
    + rewrite Hset. reflexivity.
    + rewrite Z.pow2_bits_false by lia. apply orb_false_r.
Qed.

Lemma sendMessage_changes_only_eff_bit_witness :
  is_open (a_state 3 0)
  /\ Z.of_nat (List.length (getFrameData (msg 0x40000123 [9]))) <= 8
  /\ exists sent,
      calls (after (sendMessage (os_ok 0) (msg 0x40000123 [9]) false)
                   (a_state 3 0))
      = [Write 3 sent 16]
      /\ Z.testbit (can_id sent) 30 = true
      /\ Z.testbit (can_id sent) 31 = true.
Proof.
  assert (Ho : is_open (a_state 3 0)) by (unfold is_open; simpl; lia).
  assert (Hl : Z.of_nat (List.length (getFrameData (msg 0x40000123 [9]))) <= 8)
    by (simpl; lia).
  split; [exact Ho|]. split; [exact Hl|].
  destruct (sendMessage_changes_only_eff_bit
              (os_ok 0) (msg 0x40000123 [9]) false (a_state 3 0) Ho Hl)
    as (sent & Hcalls & Hbits & _).
  exists sent. split; [exact Hcalls|]. split.
  - rewrite Hbits by lia. reflexivity.
  - assert (Hs : sent = or_eff_flag (getRawFrame (msg 0x40000123 [9]))).
    { vm_compute in Hcalls. injection Hcalls as <-. reflexivity. }
    rewrite Hs. reflexivity.
Defined.
